(** * svn-commit-gen: diff simplification, SVN diff retrieval, configuration
      cache, OpenAI retry loop and code-review batch, embedded in Rocq.

    Source files embedded here:
    - [src/src/utils/diff/DiffSimplifier.ts]      (module [DiffSimplifier])
    - [src/src/scm/SvnProvider.ts]                (module [SvnProvider])
    - [src/unnamed/part_000], ConfigurationManager (module [ConfigurationManager])
    - [src/unnamed/part_000], OpenAIProvider       (module [OpenAIProvider])
    - [src/unnamed/part_001], ReviewCodeCommand    (module [ReviewCodeCommand])

    A JavaScript string is a finite sequence of UTF-16 code units; it is
    modelled as a [list N] of code units, so that [length] is the JS
    [.length] and [take]/[drop] are [substring].  A JavaScript [Map] whose
    order is never observed is a [gmap]; one that is iterated is an
    association list in insertion order.  Calls into the editor, the
    localization catalog, the [svn] process and the AI vendor are parameters
    of the sections that use them. *)

From Stdlib Require Import ZArith NArith Ascii String DecimalString QArith Qround Lia.
From stdpp Require Import strings gmap list.

Local Open Scope Z_scope.

(** ** JavaScript string primitives used by the sources *)

Module JS.

Abbreviation jsstring := (list N).

(** An ASCII literal of the source text, as code units. *)
Definition lit (s : string) : jsstring :=
  (λ a, N_of_ascii a) <$> list_ascii_of_string s.

Definition LF : N := 10%N.
Definition SP : N := 32%N.
Definition QUOTE : N := 34%N.

(** The class [\s] of ECMAScript regular expressions, which is also the set
    stripped by [String.prototype.trim]: WhiteSpace and LineTerminator. *)
Definition isSpace (c : N) : bool :=
  ((9 <=? c) && (c <=? 13) || (c =? 32) || (c =? 160) || (c =? 5760)
   || (8192 <=? c) && (c <=? 8202) || (c =? 8232) || (c =? 8233)
   || (c =? 8239) || (c =? 8287) || (c =? 12288) || (c =? 65279))%N.

(** Truthiness of a string: [!s] is [true] exactly on the empty string. *)
Definition truthy (s : jsstring) : bool :=
  match s with [] => false | _ :: _ => true end.

(** [s.startsWith(p)] *)
Fixpoint startsWith (s p : jsstring) {struct p} : bool :=
  match p, s with
  | [], _ => true
  | _ :: _, [] => false
  | a :: p', b :: s' => (a =? b)%N && startsWith s' p'
  end.

(** [s.includes(p)] *)
Fixpoint includes (s p : jsstring) : bool :=
  startsWith s p ||
  match s with
  | [] => false
  | _ :: s' => includes s' p
  end.

(** [s.substring(0, e)]: a negative end is clamped to 0, an end past the
    string to its length. *)
Definition substring0 (s : jsstring) (e : Z) : jsstring :=
  take (Z.to_nat e) s.

(** [s.split("\n")]; never the empty array: [split [] = [[]]]. *)
Fixpoint split (s : jsstring) : list jsstring :=
  match s with
  | [] => [[]]
  | c :: r =>
      if (c =? LF)%N then [] :: split r
      else match split r with
           | [] => [[c]]
           | h :: t => (c :: h) :: t
           end
  end.

(** [a.join(sep)] *)
Fixpoint joinWith (sep : jsstring) (a : list jsstring) : jsstring :=
  match a with
  | [] => []
  | [x] => x
  | x :: r => x ++ sep ++ joinWith sep r
  end.

(** [a.join("\n")] *)
Definition join (a : list jsstring) : jsstring := joinWith [LF] a.

(** The match of [/^\s*/]: the leading run of white space. *)
Fixpoint leadingSpaces (s : jsstring) : jsstring :=
  match s with
  | c :: r => if isSpace c then c :: leadingSpaces r else []
  | [] => []
  end.

Fixpoint trimStart (s : jsstring) : jsstring :=
  match s with
  | c :: r => if isSpace c then trimStart r else s
  | [] => []
  end.

Definition trimEnd (s : jsstring) : jsstring := rev (trimStart (rev s)).

(** [s.trim()] *)
Definition trim (s : jsstring) : jsstring := trimEnd (trimStart s).

(** [s.replace(/\s+/g, " ")]: every maximal run of white space becomes one
    space; [inRun] tells that the previous code unit was white space. *)
Fixpoint collapseFrom (inRun : bool) (s : jsstring) : jsstring :=
  match s with
  | [] => []
  | c :: r =>
      if isSpace c
      then (if inRun then collapseFrom true r else SP :: collapseFrom true r)
      else c :: collapseFrom false r
  end.

Definition collapseSpaces (s : jsstring) : jsstring := collapseFrom false s.

(** [s.replace(/c/g, r)] for a one-character pattern [c]. *)
Fixpoint replaceAll (c : N) (r : jsstring) (s : jsstring) : jsstring :=
  match s with
  | [] => []
  | x :: s' => (if (x =? c)%N then r else [x]) ++ replaceAll c r s'
  end.

(** [s.replace(pat, r)] for a string pattern: the first occurrence only. *)
Fixpoint replaceFirst (pat r : jsstring) (s : jsstring) : jsstring :=
  if startsWith s pat then r ++ drop (length pat) s
  else match s with
       | [] => []
       | x :: s' => x :: replaceFirst pat r s'
       end.

(** A call either returns or throws an [Error] carrying a message. *)
Inductive Outcome (A : Type) : Type :=
| Return (a : A)
| Throw (message : jsstring).
Arguments Return {A} a.
Arguments Throw {A} message.

(** What the user and the console get to see: [vscode.window], the
    [NotificationHandler] helpers, [console] and the progress reporter. *)
Inductive UiEvent : Type :=
| ShowWarningMessage (m : jsstring)
| ShowErrorMessage (m : jsstring)
| NotifyWarn (m : jsstring)
| NotifyError (m : jsstring)
| NotifyInfo (m : jsstring)
| ConsoleError (label : jsstring) (detail : jsstring)
| ProgressReport (message : option jsstring)
| WebviewPanel (title html : jsstring).

End JS.

Import JS.

(** ** [DiffSimplifier] (src/src/utils/diff/DiffSimplifier.ts) *)

Module DiffSimplifier.

(** [DiffConfig] of the (absent) [./types]: the three fields [simplify]
    reads.  Both numbers are integer settings. *)
Record DiffConfig := {
  enabled : bool;
  contextLines : Z;
  maxLineLength : Z
}.

(** The class state: [private static configCache: DiffConfig | null]. *)
Record Static := { configCache : option DiffConfig }.

(** [getConfig()], with the settings read by [getDiffConfig()] passed in. *)
Definition getConfig (getDiffConfig : DiffConfig) (st : Static)
  : DiffConfig * Static :=
  match configCache st with
  | Some c => (c, st)
  | None => (getDiffConfig, {| configCache := Some getDiffConfig |})
  end.

Definition clearConfigCache (st : Static) : Static :=
  {| configCache := None |}.

Definition ellipsis : jsstring := lit "...".

(** [truncateLine(line, maxLength)] *)
Definition truncateLine (line : jsstring) (maxLength : Z) : jsstring :=
  if negb (truthy line) || (Z.of_nat (length line) <=? maxLength)
  then line
  else substring0 line (maxLength - Z.of_nat (length ellipsis)) ++ ellipsis.

(** The character class [[+ -]] of the prefix match. *)
Definition isDiffMarker (c : N) : bool :=
  ((c =? 43) || (c =? 32) || (c =? 45))%N.

(** [compressLine(line)] *)
Definition compressLine (line : jsstring) : jsstring :=
  if negb (truthy line) then line
  else
    let prefix :=
      match line with
      | c :: _ => if isDiffMarker c then [c] else []
      | [] => []
      end in
    let content := if truthy prefix then drop 1 line else line in
    let indent := leadingSpaces content in
    let content := drop (length indent) content in
    let content := collapseSpaces (trim content) in
    prefix
    ++ (if (0 <? length indent)%nat
        then replicate (Nat.min 2 (length indent)) SP else [])
    ++ content.

Definition isHeaderLine (line : jsstring) : bool :=
  startsWith line (lit "Index:") || startsWith line (lit "===")
  || startsWith line (lit "---") || startsWith line (lit "+++").

Definition isChangeLine (line : jsstring) : bool :=
  startsWith line (lit "+") || startsWith line (lit "-").

(** The two variables the [for] loop of [simplify] mutates. *)
Record Loop := { simplified : list jsstring; skipCount : Z }.

Definition push (x : jsstring) (k : Z) (st : Loop) : Loop :=
  {| simplified := simplified st ++ [x]; skipCount := k |}.

(** One iteration of the loop on [lines[i]]. *)
Definition loopBody (config : DiffConfig) (st : Loop) (raw : jsstring) : Loop :=
  let line := compressLine raw in
  if isHeaderLine line then push line (skipCount st) st
  else if isChangeLine line
  then push (truncateLine line (maxLineLength config)) 0 st
  else if skipCount st <? contextLines config
  then push (truncateLine line (maxLineLength config)) (skipCount st + 1) st
  else if skipCount st =? contextLines config
  then push ellipsis (skipCount st + 1) st
  else st.

Definition runLoop (config : DiffConfig) (lines : list jsstring) : Loop :=
  fold_left (loopBody config) lines {| simplified := []; skipCount := 0 |}.

(** [simplify] once the configuration is known. *)
Definition simplifyWith (config : DiffConfig) (diff : jsstring) : jsstring :=
  if negb (enabled config) then diff
  else join (simplified (runLoop config (split diff))).

(** [simplify(diff)] *)
Definition simplify (getDiffConfig : DiffConfig) (st : Static) (diff : jsstring)
  : jsstring * Static :=
  let '(config, st') := getConfig getDiffConfig st in
  (simplifyWith config diff, st').

End DiffSimplifier.

(** ** [SvnProvider] (src/src/scm/SvnProvider.ts) *)

Module SvnProvider.

(** What [await exec(command, ...)] gives: the two streams, or a rejection
    (the process could not be run or exited with a failure). *)
Record ExecOutput := { stdout : jsstring; stderr : jsstring }.

Inductive ExecResult :=
| Resolved (out : ExecOutput)
| Rejected (message : jsstring).

Section GetDiff.

(** [LocalizationManager.getInstance().getMessage] and [.format]. *)
Variable getMessage : jsstring -> jsstring.
Variable format : jsstring -> jsstring -> jsstring.
(** [exec], as a function of the command line. *)
Variable exec : jsstring -> ExecResult.
(** [config.get<boolean>("enableDiffSimplification")] *)
Variable enableSimplification : option bool.
(** The settings [getDiffConfig()] reads for the simplifier. *)
Variable getDiffConfig : DiffSimplifier.DiffConfig.

(** The state [getDiff] works on: the simplifier's class state and the
    messages shown so far. *)
Record Host := {
  simplifier : DiffSimplifier.Static;
  shown : list UiEvent
}.

Definition emit (e : UiEvent) (h : Host) : Host :=
  {| simplifier := simplifier h; shown := shown h ++ [e] |}.

(** The command line built from [files]. *)
Definition command (files : option (list jsstring)) : jsstring :=
  match files with
  | Some ((_ :: _) as fs) =>
      let filesPaths :=
        joinWith (lit " ") ((λ file, QUOTE :: file ++ [QUOTE]) <$> fs) in
      if (length filesPaths =? 0)%nat then lit "svn diff"
      else lit "svn diff " ++ filesPaths
  | _ => lit "svn diff"
  end.

(** The [try] block. *)
Definition getDiffTry (files : option (list jsstring)) (h : Host)
  : Outcome jsstring * Host :=
  match exec (command files) with
  | Rejected m => (Throw m, h)
  | Resolved out =>
      if truthy (stderr out) then (Throw (stderr out), h)
      else if negb (truthy (trim (stdout out)))
      then (Throw (getMessage (lit "diff.noChanges")), h)
      else
        match enableSimplification with
        | Some true =>
            let h1 :=
              emit (ShowWarningMessage
                      (getMessage (lit "diff.simplification.warning"))) h in
            let '(r, st) :=
              DiffSimplifier.simplify getDiffConfig (simplifier h1) (stdout out) in
            (Return r, {| simplifier := st; shown := shown h1 |})
        | _ => (Return (stdout out), h)
        end
  end.

(** [getDiff(files)]: the [catch] block logs, shows the error and
    rethrows it. *)
Definition getDiff (files : option (list jsstring)) (h : Host)
  : Outcome jsstring * Host :=
  match getDiffTry files h with
  | (Return r, h') => (Return r, h')
  | (Throw m, h') =>
      (Throw m,
       emit (ShowErrorMessage (format (lit "git.diff.failed") m))
            (emit (ConsoleError (lit "SVN diff failed:") m) h'))
  end.

End GetDiff.

End SvnProvider.

(** ** [ConfigurationManager] and [ConfigKeys] (src/unnamed/part_000) *)

Module ConfigurationManager.

(** [ConfigObject] of the (absent) [./ConfigSchema]: a category maps names
    to sub-objects, a leaf is what [isConfigValue] recognises. *)
#[warnings="-register-all"]
Inductive ConfigNode : Type :=
| ConfigValue
| Category (entries : list (jsstring * ConfigNode)).

(** The [ConfigKeys] table of the types file under [src]. *)
Inductive KnownKey : Type :=
| COMMIT_LANGUAGE | SYSTEM_PROMPT | PROVIDER | MODEL
| OPENAI_API_KEY | OPENAI_BASE_URL | OLLAMA_BASE_URL | ALLOW_MERGE_COMMITS.

Definition KnownKeys (k : KnownKey) : jsstring :=
  match k with
  | COMMIT_LANGUAGE => lit "dish-ai-commit.commitLanguage"
  | SYSTEM_PROMPT => lit "dish-ai-commit.systemPrompt"
  | PROVIDER => lit "dish-ai-commit.provider"
  | MODEL => lit "dish-ai-commit.model"
  | OPENAI_API_KEY => lit "dish-ai-commit.openai.apiKey"
  | OPENAI_BASE_URL => lit "dish-ai-commit.openai.baseUrl"
  | OLLAMA_BASE_URL => lit "dish-ai-commit.ollama.baseUrl"
  | ALLOW_MERGE_COMMITS => lit "dish-ai-commit.allowMergeCommits"
  end.

Section Manager.

(** The values of settings ([any] in the source); [None] is [undefined]. *)
Variable V : Type.
(** [ConfigKey] and the table [ConfigKeys] the manager is built against. *)
Variable ConfigKey : Type.
Variable ConfigKeys : ConfigKey -> jsstring.
(** [EXTENSION_NAME] and [CONFIG_SCHEMA] of the absent modules. *)
Variable EXTENSION_NAME : jsstring.
Variable CONFIG_SCHEMA : list (jsstring * ConfigNode).

(** The two mutable fields: the settings handle (its [get]) and the
    cache [Map<string, any>]. *)
Record Manager := {
  configuration : jsstring -> option V;
  configCache : gmap (list N) (option V)
}.

(** [Map.prototype.has] and [.get] on the cache. *)
Definition has (key : jsstring) (c : gmap (list N) (option V)) : bool :=
  bool_decide (is_Some (c !! key)).

Definition get (key : jsstring) (c : gmap (list N) (option V)) : option V :=
  match c !! key with
  | Some v => v
  | None => None
  end.

Definition getUpdatedValue (m : Manager) (key : jsstring) : option V :=
  configuration m key.

(** [updateConfigCache(changedKeys)]: the [forEach] as a left fold. *)
Definition updateConfigCache (changedKeys : list jsstring) (m : Manager)
  : Manager :=
  fold_left
    (λ m key,
       match getUpdatedValue m key with
       | Some value =>
           {| configuration := configuration m;
              configCache := <[key := Some value]> (configCache m) |}
       | None => m
       end)
    changedKeys m.

(** [traverse(obj, path)] of [getChangedConfigurationKeys], for an event
    whose [affectsConfiguration] is [affects]. *)
Fixpoint traverseNode (affects : jsstring -> bool) (value : ConfigNode)
  (newPath : jsstring) : list jsstring :=
  match value with
  | ConfigValue =>
      if affects (EXTENSION_NAME ++ lit "." ++ newPath) then [newPath] else []
  | Category entries =>
      (fix each (obj : list (jsstring * ConfigNode)) : list jsstring :=
         match obj with
         | [] => []
         | (key, v) :: rest =>
             traverseNode affects v
               (if truthy newPath then newPath ++ lit "." ++ key else key)
             ++ each rest
         end) entries
  end.

Definition getChangedConfigurationKeys (affects : jsstring -> bool)
  : list jsstring :=
  traverseNode affects (Category CONFIG_SCHEMA) [].

(** [key.split(".")[0]] *)
Fixpoint firstSegment (key : jsstring) : jsstring :=
  match key with
  | [] => []
  | c :: r => if (c =? 46)%N then [] else c :: firstSegment r
  end.

(** [handleConfigurationChange]: the providers handed to
    [AIProviderFactory.reinitializeProvider], in order. *)
Definition handleConfigurationChange (changedKeys : list jsstring)
  : list jsstring :=
  let some p := existsb (λ key, startsWith key (lit p)) changedKeys in
  if existsb (λ key, bool_decide (firstSegment key = lit "providers")) changedKeys
  then
    (if some "providers.openai" then [lit "OpenAI"] else [])
    ++ (if some "providers.ollama" then [lit "Ollama"] else [])
    ++ (if some "providers.zhipuai" then [lit "ZhipuAI"] else [])
    ++ (if some "providers.dashscope" then [lit "DashScope"] else [])
    ++ (if some "providers.doubao" then [lit "Doubao"] else [])
  else [].

(** The listener registered in the constructor, for an event whose
    [affectsConfiguration] is [affects]; [fresh] is the handle that
    [vscode.workspace.getConfiguration(EXTENSION_NAME)] returns then. *)
Definition onDidChangeConfiguration (affects : jsstring -> bool)
  (fresh : jsstring -> option V) (m : Manager) : Manager * list jsstring :=
  let changedKeys := getChangedConfigurationKeys affects in
  if (0 <? length changedKeys)%nat
  then
    let m1 := updateConfigCache changedKeys m in
    ({| configuration := fresh; configCache := configCache m1 |},
     handleConfigurationChange changedKeys)
  else (m, []).

(** [getConfig(key, useCache)] *)
Definition getConfig (key : ConfigKey) (useCache : bool) (m : Manager)
  : option V * Manager :=
  let configKey := replaceFirst (lit "dish-ai-commit.") [] (ConfigKeys key) in
  if negb useCache then (configuration m configKey, m)
  else
    let m1 :=
      if negb (has configKey (configCache m))
      then {| configuration := configuration m;
              configCache :=
                <[configKey := configuration m configKey]> (configCache m) |}
      else m in
    (get configKey (configCache m1), m1).

End Manager.

End ConfigurationManager.

(** ** [OpenAIProvider] (src/unnamed/part_000) *)

Module OpenAIProvider.

(** The fields of [AIModel] and [AIRequestParams] that [generateResponse]
    reads; an absent optional field is [None]. *)
Record AIModel := {
  id : jsstring;
  maxTokensInput : option Z
}.

Record AIRequestParams := {
  diff : jsstring;
  systemPrompt : option jsstring;
  model : option AIModel;
  language : option jsstring;
  allowMergeCommits : option bool;
  splitChangesInSingleFile : option bool;
  scm : option jsstring
}.

(** The request handed to [openai.chat.completions.create]. *)
Record ChatRequest := {
  requestModel : jsstring;
  systemContent : jsstring;
  userContent : jsstring
}.

Record Usage := {
  prompt_tokens : option Z;
  completion_tokens : option Z;
  total_tokens : option Z
}.

(** What the vendor answers: a completion (the content of its first choice
    and its usage block, both optional) or a thrown error, whose [message]
    may be missing. *)
Record Completion := {
  firstChoiceContent : option jsstring;
  usage : option Usage
}.

Inductive VendorResult :=
| Completed (c : Completion)
| Failed (message : option jsstring).

(** [AIResponse] *)
Record AIResponse := {
  content : jsstring;
  promptTokens : option Z;
  completionTokens : option Z;
  totalTokens : option Z
}.

(** [a || b] on optional strings, numbers and booleans. *)
Definition orString (a : option jsstring) (b : jsstring) : jsstring :=
  match a with
  | Some ((_ :: _) as s) => s
  | _ => b
  end.

Definition orNumber (a : option Z) (b : Z) : Z :=
  match a with
  | Some 0 | None => b
  | Some n => n
  end.

Definition orFalse (a : option bool) : bool :=
  match a with
  | Some b => b
  | None => false
  end.

(** [Math.floor(maxInputLength * 0.8)] on an integer budget.  The product is
    taken over the rationals; on the integers a double represents exactly
    (all token budgets), the rounded double product has the same floor. *)
Definition shrink (maxInputLength : Z) : Z :=
  Qfloor (inject_Z maxInputLength * (8 # 10)).

Definition maxRetries : Z := 2.

Section GenerateResponse.

(** [LocalizationManager]'s [getMessage] and [format], the prompt generator
    and [DEFAULT_CONFIG.language]. *)
Variable getMessage : jsstring -> jsstring.
Variable format : jsstring -> option jsstring -> jsstring.
Variable generateCommitMessageSystemPrompt :
  jsstring -> bool -> bool -> jsstring -> jsstring.
Variable defaultLanguage : jsstring.
(** The vendor: what the [n]-th call of this [generateResponse] answers to
    the request it is sent. *)
Variable vendor : nat -> ChatRequest -> VendorResult.

(** The variables of the [while (true)] loop, with the requests sent and the
    notifications raised so far. *)
Record Loop := {
  retries : Z;
  maxInputLength : Z;
  sent : list ChatRequest;
  notified : list UiEvent
}.

Definition buildRequest (params : AIRequestParams) (maxInputLength : Z)
  : ChatRequest :=
  {| requestModel :=
       match model params with
       | Some m => orString (Some (id m)) (lit "gpt-3.5-turbo")
       | None => lit "gpt-3.5-turbo"
       end;
     systemContent :=
       orString (systemPrompt params)
         (generateCommitMessageSystemPrompt
            (orString (language params) defaultLanguage)
            (orFalse (allowMergeCommits params))
            (orFalse (splitChangesInSingleFile params))
            (orString (scm params) (lit "git")));
     userContent := substring0 (diff params) maxInputLength |}.

Definition toResponse (c : Completion) : AIResponse :=
  {| content := orString (firstChoiceContent c) [];
     promptTokens := usage c ≫= prompt_tokens;
     completionTokens := usage c ≫= completion_tokens;
     totalTokens := usage c ≫= total_tokens |}.

(** [error.message?.includes("maximum context length")] *)
Definition isContextLengthError (message : option jsstring) : bool :=
  match message with
  | Some m => includes m (lit "maximum context length")
  | None => false
  end.

(** One pass through the body of the loop: [inr] leaves the loop with the
    call's outcome, [inl] is [continue]. *)
Definition iteration (params : AIRequestParams) (st : Loop)
  : Loop + (Outcome AIResponse * Loop) :=
  let request := buildRequest params (maxInputLength st) in
  let st1 := {| retries := retries st; maxInputLength := maxInputLength st;
                sent := sent st ++ [request]; notified := notified st |} in
  match vendor (length (sent st)) request with
  | Completed completion =>
      let st2 :=
        if Z.of_nat (length (diff params)) >? maxInputLength st
        then {| retries := retries st1; maxInputLength := maxInputLength st1;
                sent := sent st1;
                notified := notified st1
                  ++ [NotifyWarn (getMessage (lit "openai.input.truncated"))] |}
        else st1 in
      inr (Return (toResponse completion), st2)
  | Failed message =>
      if (retries st <? maxRetries) && isContextLengthError message
      then inl {| retries := retries st + 1;
                  maxInputLength := shrink (maxInputLength st);
                  sent := sent st1; notified := notified st1 |}
      else
        let errorMessage := format (lit "openai.generation.failed") message in
        inr (Throw errorMessage,
             {| retries := retries st1; maxInputLength := maxInputLength st1;
                sent := sent st1;
                notified := notified st1 ++ [NotifyError errorMessage] |})
  end.

(** The loop, run for at most [fuel] passes; [None] when they do not
    suffice. *)
Fixpoint loop (fuel : nat) (params : AIRequestParams) (st : Loop)
  : option (Outcome AIResponse * Loop) :=
  match fuel with
  | O => None
  | S fuel' =>
      match iteration params st with
      | inr done => Some done
      | inl st' => loop fuel' params st'
      end
  end.

Definition initial (params : AIRequestParams) : Loop :=
  {| retries := 0;
     maxInputLength := orNumber (model params ≫= maxTokensInput) 16385;
     sent := []; notified := [] |}.

(** [generateResponse(params)], given [fuel] passes. *)
Definition generateResponse (fuel : nat) (params : AIRequestParams)
  : option (Outcome AIResponse * Loop) :=
  loop fuel params (initial params).

End GenerateResponse.

End OpenAIProvider.

(** ** [ReviewCodeCommand] (src/unnamed/part_001) *)

Module ReviewCodeCommand.

(** A [Map<string, string>], which keeps its keys in insertion order. *)
Abbreviation StringMap := (list (jsstring * jsstring)).

(** [m.set(key, value)]: a present key keeps its place. *)
Fixpoint mapSet (key value : jsstring) (m : StringMap) : StringMap :=
  match m with
  | [] => [(key, value)]
  | (k, v) :: m' =>
      if bool_decide (k = key) then (k, value) :: m'
      else (k, v) :: mapSet key value m'
  end.

(** [escapeHtml(unsafe)] *)
Definition escapeHtml (unsafe : jsstring) : jsstring :=
  replaceAll 39 (lit "&#039;")
    (replaceAll 34 (lit "&quot;")
       (replaceAll 62 (lit "&gt;")
          (replaceAll 60 (lit "&lt;")
             (replaceAll 38 (lit "&amp;") unsafe)))).

(** [name="value"] inside a tag of the template. *)
Definition attr (name value : string) : jsstring :=
  lit name ++ lit "=" ++ QUOTE :: lit value ++ [QUOTE].

Section Command.

(** [locManager.getMessage] and [.format], and [path.basename]. *)
Variable getMessage : jsstring -> jsstring.
Variable format : jsstring -> jsstring -> jsstring.
Variable basename : jsstring -> jsstring.

(** The section of one file in [getWebviewContent]. *)
Definition reviewSection (entry : jsstring * jsstring) : jsstring :=
  lit "
        <div " ++ attr "class" "review-section" ++ lit ">
          <h3 " ++ attr "class" "file-name" ++ lit ">"
  ++ escapeHtml (basename entry.1) ++ lit "</h3>
          <div " ++ attr "class" "review-content" ++ lit ">"
  ++ escapeHtml entry.2 ++ lit "</div>
        </div>
      ".

Definition reviewHtml (fileReviews : StringMap) : jsstring :=
  joinWith [LF] (reviewSection <$> fileReviews).

(** [getWebviewContent(fileReviews)] *)
Definition getWebviewContent (fileReviews : StringMap) : jsstring :=
  lit "<!DOCTYPE html>
    <html>
      <head>
        <meta " ++ attr "charset" "UTF-8" ++ lit ">
        <meta " ++ attr "name" "viewport" ++ lit " "
  ++ attr "content" "width=device-width, initial-scale=1.0" ++ lit ">
        <title>" ++ getMessage (lit "review.results.title") ++ lit "</title>
        <style>
          body { padding: 20px; }
          .review-section { margin-bottom: 30px; }
          .file-name { 
            margin-bottom: 10px;
            padding-bottom: 5px;
            border-bottom: 1px solid var(--vscode-textSeparator-foreground);
          }
          .review-content { 
            white-space: pre-wrap;
            font-family: var(--vscode-editor-font-family);
          }
        </style>
      </head>
      <body>" ++ reviewHtml fileReviews ++ lit "</body>
    </html>".

(** The collaborators of [execute], from [BaseCommand] and the providers:
    whether [handleConfiguration] and [detectSCMProvider] give a result, what
    [scmProvider.getDiff(getSelectedFiles(resource))] answers for the
    resource at [fsPath], and what the review call made for [filePath]
    answers ([None]: no result or no content). *)
Variable handleConfiguration : bool.
Variable detectSCMProvider : bool.
Variable getDiff : jsstring -> Outcome (option jsstring).
Variable generateCodeReview : jsstring -> jsstring -> Outcome (option jsstring).

(** The two maps of the progress callback and what the command itself has
    shown, logged and reported so far. *)
Record Run := {
  diffs : StringMap;
  fileReviews : StringMap;
  events : list UiEvent
}.

Definition say (e : UiEvent) (r : Run) : Run :=
  {| diffs := diffs r; fileReviews := fileReviews r; events := events r ++ [e] |}.

(** The callback of [diffPromises], for the resource at [fsPath]. *)
Definition collectDiff (r : Run) (fsPath : jsstring) : Run :=
  match getDiff fsPath with
  | Return diff =>
      let r1 :=
        match diff with
        | Some ((_ :: _) as d) =>
            {| diffs := mapSet fsPath d (diffs r);
               fileReviews := fileReviews r; events := events r |}
        | _ => r
        end in
      say (ProgressReport (Some (getMessage (lit "getting.file.changes")))) r1
  | Throw e =>
      say (ConsoleError (lit "Failed to get diff for " ++ fsPath ++ lit ":") e) r
  end.

(** The callback of [reviewPromises], for one entry of [diffs]. *)
Definition reviewFile (r : Run) (entry : jsstring * jsstring) : Run :=
  let '(filePath, diff) := entry in
  let r1 :=
    say (ProgressReport
           (Some (format (lit "reviewing.file") (basename filePath)))) r in
  match generateCodeReview filePath diff with
  | Return reviewResult =>
      let r2 :=
        match reviewResult with
        | Some ((_ :: _) as c) =>
            {| diffs := diffs r1;
               fileReviews := mapSet filePath c (fileReviews r1);
               events := events r1 |}
        | _ => r1
        end in
      say (ProgressReport None) r2
  | Throw e =>
      say (ConsoleError (lit "Failed to review " ++ filePath ++ lit ":") e)
        (say (NotifyWarn
                (format (lit "review.file.failed") (basename filePath))) r1)
  end.

(** [n.toString()] of a size. *)
Definition toString (n : nat) : jsstring :=
  lit (NilEmpty.string_of_uint (Nat.to_uint n)).

(** The callback given to [ProgressHandler.withProgress].  The calls of one
    [Promise.all] are taken to complete in the order they were started. *)
Definition reviewAll (resources : list jsstring) : Run :=
  let r1 :=
    fold_left collectDiff resources
      {| diffs := []; fileReviews := []; events := [] |} in
  if (length (diffs r1) =? 0)%nat
  then say (NotifyWarn (getMessage (lit "no.changes.found"))) r1
  else
    let r2 := fold_left reviewFile (diffs r1) r1 in
    let r3 :=
      say (ProgressReport (Some (getMessage (lit "preparing.results")))) r2 in
    if (length (fileReviews r3) =? 0)%nat
    then say (NotifyError (getMessage (lit "review.all.failed"))) r3
    else
      say (NotifyInfo
             (format (lit "review.complete.count")
                (toString (length (fileReviews r3)))))
        (say (WebviewPanel (getMessage (lit "review.results.title"))
                (getWebviewContent (fileReviews r3))) r3).

(** [execute(resources)], each resource given by its
    [resourceUri.fsPath]. *)
Definition execute (resources : list jsstring) : Run :=
  let idle := {| diffs := []; fileReviews := []; events := [] |} in
  if negb handleConfiguration then idle
  else if (length resources =? 0)%nat
  then say (NotifyWarn (getMessage (lit "no.changes.selected"))) idle
  else if negb detectSCMProvider then idle
  else reviewAll resources.

End Command.

End ReviewCodeCommand.

(** * Notions used to state the properties *)

Module Lines.

Import DiffSimplifier.

(** A raw line the loop treats as a header, a changed or a context line:
    the tests are made on the compressed line, headers first. *)
Definition isHeader (raw : jsstring) : bool := isHeaderLine (compressLine raw).

Definition isChange (raw : jsstring) : bool :=
  negb (isHeader raw) && isChangeLine (compressLine raw).

Definition isContext (raw : jsstring) : bool :=
  negb (isHeaderLine (compressLine raw)) && negb (isChangeLine (compressLine raw)).

(** What a kept changed or context line is pushed as. *)
Definition literal (config : DiffConfig) (raw : jsstring) : jsstring :=
  truncateLine (compressLine raw) (maxLineLength config).

(** The lines the loop pushes for [lines] when it reaches them with
    [skipCount = k], and the value of [skipCount] after them. *)
Fixpoint pushed (config : DiffConfig) (k : Z) (lines : list jsstring)
  : list jsstring :=
  match lines with
  | [] => []
  | raw :: rest =>
      if isHeader raw then compressLine raw :: pushed config k rest
      else if isChangeLine (compressLine raw)
      then literal config raw :: pushed config 0 rest
      else if k <? contextLines config
      then literal config raw :: pushed config (k + 1) rest
      else if k =? contextLines config
      then ellipsis :: pushed config (k + 1) rest
      else pushed config k rest
  end.

Definition counterAfter (config : DiffConfig) (k : Z) (lines : list jsstring) : Z :=
  skipCount (fold_left (loopBody config) lines {| simplified := []; skipCount := k |}).

(** No context line has been met since the last changed line (or since the
    start): only header lines, if any, stand after it. *)
Fixpoint sinceChange (seenContext : bool) (lines : list jsstring) : bool :=
  match lines with
  | [] => negb seenContext
  | raw :: rest =>
      if isHeader raw then sinceChange seenContext rest
      else if isChange raw then sinceChange false rest
      else sinceChange true rest
  end.

Definition freshStart (pre : list jsstring) : bool := sinceChange false pre.

(** White space inside a compressed line: single spaces only, none at either
    end ([prevSpace]: the code unit before was white space, or the start). *)
Fixpoint tidyFrom (prevSpace : bool) (s : jsstring) : bool :=
  match s with
  | [] => negb prevSpace
  | c :: r =>
      if isSpace c then negb prevSpace && (c =? SP)%N && tidyFrom true r
      else tidyFrom false r
  end.

Definition tidy (s : jsstring) : bool :=
  match s with [] => true | _ => tidyFrom true s end.

(** The last code unit is not white space ([prevSpace] stands for the one
    before the string). *)
Fixpoint endsClean (prevSpace : bool) (s : jsstring) : bool :=
  match s with
  | [] => negb prevSpace
  | c :: r => endsClean (isSpace c) r
  end.

(** At most two spaces of indentation, then tidy text. *)
Definition indented (r : jsstring) : bool :=
  tidy r
  || match r with
     | c1 :: r1 =>
         (c1 =? SP)%N
         && (tidy r1
             || match r1 with
                | c2 :: r2 => (c2 =? SP)%N && tidy r2
                | [] => false
                end)
     | [] => false
     end.

(** The shape of the lines [compressLine] returns. *)
Definition compact (l : jsstring) : bool :=
  match l with
  | [] => true
  | c :: r => if isDiffMarker c then indented r else tidy l
  end.

End Lines.

(** The budget, the request and the vendor's answer of the attempt number
    [k] (from 0) of one [generateResponse], when all attempts before it were
    retried. *)
Module Retry.

Import OpenAIProvider.

Section Attempts.

Variable generateCommitMessageSystemPrompt :
  jsstring -> bool -> bool -> jsstring -> jsstring.
Variable defaultLanguage : jsstring.
Variable vendor : nat -> ChatRequest -> VendorResult.
Variable params : AIRequestParams.

Definition budget (k : nat) : Z :=
  Nat.iter k shrink (orNumber (model params ≫= maxTokensInput) 16385).

Definition request (k : nat) : ChatRequest :=
  buildRequest generateCommitMessageSystemPrompt defaultLanguage params (budget k).

Definition answer (k : nat) : VendorResult := vendor k (request k).

(** The attempt failed with a message that contains the phrase. *)
Definition retryable (k : nat) : bool :=
  match answer k with
  | Failed message => isContextLengthError message
  | Completed _ => false
  end.

End Attempts.

End Retry.

(** The five entities of [escapeHtml], what it makes of one code unit, and
    the number of times a code unit occurs in a string. *)
Module Html.

Definition entities : list jsstring :=
  [lit "&amp;"; lit "&lt;"; lit "&gt;"; lit "&quot;"; lit "&#039;"].

Definition escapeChar (x : N) : jsstring :=
  if (x =? 38)%N then lit "&amp;"
  else if (x =? 60)%N then lit "&lt;"
  else if (x =? 62)%N then lit "&gt;"
  else if (x =? 34)%N then lit "&quot;"
  else if (x =? 39)%N then lit "&#039;"
  else [x].

Definition occurrences (c : N) (s : jsstring) : nat :=
  length (List.filter (N.eqb c) s).

End Html.

(** What the batch of [ReviewCodeCommand.execute] makes of one file: the diff
    kept for it, the review kept for it, whether its review call throws; and
    the three kinds of events the claims speak of. *)
Module Batch.

Definition diffOk (getDiff : jsstring -> Outcome (option jsstring))
  (fsPath : jsstring) : option jsstring :=
  match getDiff fsPath with
  | Return (Some ((_ :: _) as d)) => Some d
  | _ => None
  end.

Definition reviewOk
  (generateCodeReview : jsstring -> jsstring -> Outcome (option jsstring))
  (entry : jsstring * jsstring) : option (jsstring * jsstring) :=
  match generateCodeReview entry.1 entry.2 with
  | Return (Some ((_ :: _) as c)) => Some (entry.1, c)
  | _ => None
  end.

Definition reviewThrows
  (generateCodeReview : jsstring -> jsstring -> Outcome (option jsstring))
  (entry : jsstring * jsstring) : bool :=
  match generateCodeReview entry.1 entry.2 with
  | Throw _ => true
  | Return _ => false
  end.

Definition isNotifyWarn (e : UiEvent) : bool :=
  match e with NotifyWarn _ => true | _ => false end.

Definition isNotifyError (e : UiEvent) : bool :=
  match e with NotifyError _ => true | _ => false end.

Definition isWebviewPanel (e : UiEvent) : bool :=
  match e with WebviewPanel _ _ => true | _ => false end.

(** A progress report or a console line: no notification, no panel. *)
Definition isProgressOrLog (e : UiEvent) : bool :=
  match e with
  | ProgressReport _ | ConsoleError _ _ => true
  | _ => false
  end.

(** The events the command raises about one entry of [diffs]. *)
Definition reviewEvents (format : jsstring -> jsstring -> jsstring)
  (basename : jsstring -> jsstring)
  (generateCodeReview : jsstring -> jsstring -> Outcome (option jsstring))
  (entry : jsstring * jsstring) : list UiEvent :=
  ProgressReport (Some (format (lit "reviewing.file") (basename entry.1)))
  :: match generateCodeReview entry.1 entry.2 with
     | Return _ => [ProgressReport None]
     | Throw e =>
         [NotifyWarn (format (lit "review.file.failed") (basename entry.1));
          ConsoleError (lit "Failed to review " ++ entry.1 ++ lit ":") e]
     end.

End Batch.

(** * The rest of the embedded sources *)

(** ** [SvnProvider]: [isAvailable], [commit], [setCommitInput] and
    [getCommitInput] (src/src/scm/SvnProvider.ts)

    The provider holds a reference [this.api], which is the extension object
    it was built with until [isAvailable] succeeds and the object returned by
    [getAPI()] from then on.  Both objects live outside the provider; they
    are the [World], which also records the calls of [commitFiles]. *)
Module SvnRepositories.

(** A repository of the SVN extension: its commit-message input box. *)
Record Repository := { inputBox : jsstring }.

Inductive ApiRef := TheExtension | TheApi.

(** [extension]: the [svnExtension] given to the constructor, absent when it
    is [undefined]; its own [repositories] property, if it has one; its
    [getAPI], if it has one, which throws or returns the API object.
    [apiRepositories]: the [repositories] of the API object, if it has any.
    [commitCalls]: the arguments [commitFiles] was called with so far. *)
Record Extension := {
  extRepositories : option (list Repository);
  getAPI : option (Outcome unit)
}.

Record World := {
  extension : option Extension;
  apiRepositories : option (list Repository);
  commitCalls : list (list jsstring * jsstring);
  console : list UiEvent
}.

(** The fields of the provider that change: [this.api] and
    [this.repositories]. *)
Record Provider := {
  api : ApiRef;
  repositoriesField : option (list Repository)
}.

(** The provider the constructor builds: [this.api = svnExtension]. *)
Definition constructed : Provider :=
  {| api := TheExtension; repositoriesField := None |}.

Section Methods.

(** [LocalizationManager]'s [getMessage]; its [format] applied to an error
    object, given by the error's message; what [repository.commitFiles]
    answers; the message of the [TypeError] raised by reading [length] of a
    missing [repositories]. *)
Variable getMessage : jsstring -> jsstring.
Variable formatError : jsstring -> jsstring -> jsstring.
Variable commitFiles : list jsstring -> jsstring -> Outcome unit.
Variable typeErrorMessage : jsstring.

Definition log (e : UiEvent) (w : World) : World :=
  {| extension := extension w; apiRepositories := apiRepositories w;
     commitCalls := commitCalls w; console := console w ++ [e] |}.

(** [this.api?.repositories] *)
Definition repositoriesOf (w : World) (p : Provider) : option (list Repository) :=
  match api p with
  | TheExtension => extension w ≫= extRepositories
  | TheApi => apiRepositories w
  end.

(** [this.api?.repositories?.[0]] *)
Definition firstRepository (w : World) (p : Provider) : option Repository :=
  repositoriesOf w p ≫= head.

(** [isAvailable()] *)
Definition isAvailable (w : World) (p : Provider) : bool * World * Provider :=
  let failed m :=
    (false, log (ConsoleError (lit "SVN availability check failed:") m) w, p) in
  match extension w ≫= getAPI with
  | None => (false, w, p)
  | Some (Throw m) => failed m
  | Some (Return _) =>
      match apiRepositories w with
      | None => failed typeErrorMessage
      | Some repositories =>
          if (0 <? length repositories)%nat
          then (true, w, {| api := TheApi; repositoriesField := Some repositories |})
          else (false, w, p)
      end
  end.

(** [commit(message, files)] *)
Definition commit (message : jsstring) (files : option (list jsstring))
  (w : World) (p : Provider) : Outcome unit * World :=
  match firstRepository w p with
  | None => (Throw (getMessage (lit "git.repository.not.found")), w)
  | Some _ =>
      let caught m w' :=
        (Throw (formatError (lit "svn.commit.failed") m),
         log (ConsoleError (lit "SVN commit failed:") m) w') in
      match files with
      | Some ((_ :: _) as fs) =>
          let w1 :=
            {| extension := extension w; apiRepositories := apiRepositories w;
               commitCalls := commitCalls w ++ [(fs, message)];
               console := console w |} in
          match commitFiles fs message with
          | Return _ => (Return tt, w1)
          | Throw m => caught m w1
          end
      | _ => caught (getMessage (lit "svn.no.files.selected")) w
      end
  end.

(** [repository.inputBox.value = message] on the first repository of a
    list. *)
Definition writeFirst (message : jsstring) (rs : list Repository)
  : list Repository :=
  match rs with
  | [] => []
  | _ :: rest => {| inputBox := message |} :: rest
  end.

(** [setCommitInput(message)] *)
Definition setCommitInput (message : jsstring) (w : World) (p : Provider)
  : Outcome unit * World :=
  match firstRepository w p with
  | None => (Throw (getMessage (lit "git.repository.not.found")), w)
  | Some _ =>
      (Return tt,
       match api p with
       | TheExtension =>
           {| extension :=
                (λ e, {| extRepositories := writeFirst message <$> extRepositories e;
                         getAPI := getAPI e |}) <$> extension w;
              apiRepositories := apiRepositories w;
              commitCalls := commitCalls w; console := console w |}
       | TheApi =>
           {| extension := extension w;
              apiRepositories := writeFirst message <$> apiRepositories w;
              commitCalls := commitCalls w; console := console w |}
       end)
  end.

(** [getCommitInput()] *)
Definition getCommitInput (w : World) (p : Provider) : Outcome jsstring :=
  match firstRepository w p with
  | None => Throw (getMessage (lit "git.repository.not.found"))
  | Some repository => Return (inputBox repository)
  end.

End Methods.

End SvnRepositories.

(** ** [OpenAIProvider]: the model catalog, [getOpenAIConfig], [isAvailable]
    and [getModels] (src/unnamed/part_000) *)
Module OpenAIClient.

Import ConfigurationManager.

(** An entry of the [models] array; every entry has the same [provider]. *)
Record Model := {
  modelId : jsstring;
  modelName : jsstring;
  inputTokens : Z;
  outputTokens : Z;
  hidden : bool;
  isDefault : bool
}.

Definition entry (id name : string) (input output : Z) (hide default : bool)
  : Model :=
  {| modelId := lit id; modelName := lit name; inputTokens := input;
     outputTokens := output; hidden := hide; isDefault := default |}.

Definition models : list Model :=
  [ entry "o1-preview" "o1 preview" 128000 32768 false false;
    entry "o1-preview-2024-09-12" "o1 preview" 128000 32768 true false;
    entry "o1-mini" "o1 mini" 128000 65536 false false;
    entry "o1-mini-2024-09-12" "o1 mini" 128000 65536 true false;
    entry "gpt-4o" "GPT-4o" 128000 16384 false true;
    entry "gpt-4o-2024-08-06" "GPT-4o" 128000 16384 true false;
    entry "gpt-4o-2024-05-13" "GPT-4o" 128000 4096 true false;
    entry "chatgpt-4o-latest" "GPT-4o" 128000 16384 true false;
    entry "gpt-4o-mini" "GPT-4o mini" 128000 16384 false false;
    entry "gpt-4o-mini-2024-07-18" "GPT-4o mini" 128000 16384 true false;
    entry "gpt-4-turbo" "GPT-4 Turbo" 128000 4096 false false;
    entry "gpt-4-turbo-2024-04-09" "GPT-4 Turbo preview (2024-04-09)"
      128000 4096 true false;
    entry "gpt-4-turbo-preview" "GPT-4 Turbo preview" 128000 4096 false false;
    entry "gpt-4-0125-preview" "GPT-4 0125 preview" 128000 4096 true false;
    entry "gpt-4-1106-preview" "GPT-4 1106 preview" 128000 4096 true false;
    entry "gpt-4" "GPT-4" 8192 4096 false false;
    entry "gpt-4-0613" "GPT-4 0613" 8192 4096 true false;
    entry "gpt-4-32k" "GPT-4 32k" 32768 4096 true false;
    entry "gpt-4-32k-0613" "GPT-4 32k 0613" 32768 4096 true false;
    entry "gpt-3.5-turbo" "GPT-3.5 Turbo" 16385 4096 false false;
    entry "gpt-3.5-turbo-0125" "GPT-3.5 Turbo 0125" 16385 4096 true false;
    entry "gpt-3.5-turbo-1106" "GPT-3.5 Turbo 1106" 16385 4096 true false;
    entry "gpt-3.5-turbo-16k" "GPT-3.5 Turbo 16k" 16385 4096 true false ].

(** [getModels()] *)
Definition getModels : Outcome (list Model) := Return models.

(** The model as [generateResponse] reads it from [params.model]. *)
Definition asRequestModel (m : Model) : OpenAIProvider.AIModel :=
  {| OpenAIProvider.id := modelId m;
     OpenAIProvider.maxTokensInput := Some (inputTokens m) |}.

(** The object [getOpenAIConfig] builds for the client; an absent field is
    [None].  [defaultQuery] is its ["api-version"] and [defaultHeaders] its
    ["api-key"], which is [undefined] when the key is. *)
Record ClientOptions := {
  apiKey : option jsstring;
  baseURL : option jsstring;
  defaultQuery : option jsstring;
  defaultHeaders : option (option jsstring)
}.

(** Truthiness of a string setting that may be [undefined]. *)
Definition nonEmpty (s : option jsstring) : bool :=
  match s with
  | Some (_ :: _) => true
  | _ => false
  end.

(** [getOpenAIConfig()], reading the settings through the manager with the
    cache off. *)
Definition getOpenAIConfig (m : Manager jsstring) : ClientOptions :=
  let read key := (getConfig jsstring KnownKey KnownKeys key false m).1 in
  let apiKey := read OPENAI_API_KEY in
  let baseURL := read OPENAI_BASE_URL in
  let apiVersion := read MODEL in
  if nonEmpty baseURL
  then
    if nonEmpty apiVersion
    then {| apiKey := apiKey; baseURL := baseURL;
            defaultQuery := apiVersion; defaultHeaders := Some apiKey |}
    else {| apiKey := apiKey; baseURL := baseURL;
            defaultQuery := None; defaultHeaders := None |}
  else {| apiKey := apiKey; baseURL := None;
          defaultQuery := None; defaultHeaders := None |}.

(** [isAvailable()] *)
Definition isAvailable (m : Manager jsstring) : bool :=
  nonEmpty (apiKey (getOpenAIConfig m)).

End OpenAIClient.

(** ** Notions used to state the further properties *)
Module More.

Import DiffSimplifier Lines ConfigurationManager.

(** What the loop pushes for a header or a changed line. *)
Definition kept (config : DiffConfig) (raw : jsstring) : jsstring :=
  if isHeader raw then compressLine raw else literal config raw.

Definition isHeaderOrChange (raw : jsstring) : bool :=
  isHeader raw || isChangeLine (compressLine raw).

(** The dotted paths of all the leaves of a schema, in the order of the
    walk. *)
Definition leafPaths (EXTENSION_NAME : jsstring)
  (schema : list (jsstring * ConfigNode)) : list jsstring :=
  getChangedConfigurationKeys EXTENSION_NAME schema (λ _, true).

(** The review call made for an entry of [diffs] returns, but with no
    result or an empty text. *)
Definition reviewEmpty
  (generateCodeReview : jsstring -> jsstring -> Outcome (option jsstring))
  (entry : jsstring * jsstring) : bool :=
  match generateCodeReview entry.1 entry.2 with
  | Return (Some (_ :: _)) => false
  | Return _ => true
  | Throw _ => false
  end.

(** The providers [handleConfigurationChange] knows, each with the prefix
    of the keys that concern it, in the order of its tests. *)
Definition providerPrefixes : list (jsstring * jsstring) :=
  [(lit "OpenAI", lit "providers.openai");
   (lit "Ollama", lit "providers.ollama");
   (lit "ZhipuAI", lit "providers.zhipuai");
   (lit "DashScope", lit "providers.dashscope");
   (lit "Doubao", lit "providers.doubao")].

(** The five code units [escapeHtml] replaces. *)
Definition isSpecial (x : N) : bool :=
  ((x =? 38) || (x =? 60) || (x =? 62) || (x =? 34) || (x =? 39))%N.

Definition isNotifyInfo (e : UiEvent) : bool :=
  match e with NotifyInfo _ => true | _ => false end.

(** The selected files that have a diff, each with its diff, in the order
    of the selection. *)
Definition collected (getDiff : jsstring -> Outcome (option jsstring))
  (resources : list jsstring) : list (jsstring * jsstring) :=
  omap (λ fsPath, pair fsPath <$> Batch.diffOk getDiff fsPath) resources.

End More.

Import DiffSimplifier Lines.

(** * Properties of the string primitives *)

Section StringFacts.

Lemma split_nonempty (s : jsstring) : split s ≠ [].
Proof.
  induction s as [|c r IH]; simpl; [done|].
  destruct (c =? LF)%N; [done|]. by destruct (split r).
Qed.

Lemma split_join (ls : list jsstring) :
  ls ≠ [] → Forall (λ l, LF ∉ l) ls → split (join ls) = ls.
Proof.
  unfold join. induction ls as [|x r IH]; [done|]. intros _ Hall.
  apply Forall_cons in Hall as [Hx Hr].
  assert (Hsplit : ∀ (y : jsstring) tl,
             LF ∉ y → split (y ++ LF :: tl) = y :: split tl).
  { clear. induction y as [|c y IHy]; intros tl Hy; simpl.
    - done.
    - apply not_elem_of_cons in Hy as [Hc Hy].
      destruct (N.eqb_spec c LF) as [->|_]; [done|].
      by rewrite IHy. }
  destruct r as [|x' r'].
  - simpl. clear IH Hr. induction x as [|c x IHx]; simpl; [done|].
    apply not_elem_of_cons in Hx as [Hc Hx].
    destruct (N.eqb_spec c LF) as [->|_]; [done|].
    by rewrite IHx.
  - change (joinWith [LF] (x :: x' :: r')) with (x ++ LF :: joinWith [LF] (x' :: r')).
    rewrite Hsplit by done. f_equal. by apply IH.
Qed.

Lemma startsWith_take_app (p c tl : jsstring) (k : nat) :
  (∀ a, a ∈ p → startsWith tl [a] = false) →
  startsWith (take k c ++ tl) p = true → startsWith c p = true.
Proof.
  revert c k. induction p as [|a p IH]; intros c k Hp H; [done|].
  assert (Ha : startsWith tl [a] = false) by (apply Hp; set_solver).
  destruct k as [|k], c as [|b c]; simpl in H.
  1-3: destruct tl as [|t tl]; [done|]; simpl in Ha;
       rewrite andb_true_r in Ha; by rewrite Ha in H.
  simpl. apply andb_true_iff in H as [-> H]. simpl.
  apply (IH c k); [|done]. intros a' Ha'. apply Hp. set_solver.
Qed.

End StringFacts.

(** * Properties of trimming and white-space collapsing *)

Section SpaceFacts.

Lemma trimStart_snoc (x : jsstring) (c : N) :
  isSpace c = false → trimStart (x ++ [c]) = trimStart x ++ [c].
Proof.
  intros Hc. induction x as [|a x IH]; simpl.
  - by rewrite Hc.
  - by destruct (isSpace a).
Qed.

Lemma trimStart_head (s : jsstring) :
  trimStart s = [] ∨ ∃ c r, trimStart s = c :: r ∧ isSpace c = false.
Proof.
  induction s as [|a s IH]; simpl; [by left|].
  destruct (isSpace a) eqn:Ha; [done|]. right. by exists a, s.
Qed.

Lemma trimStart_fix (c : N) (r : jsstring) :
  isSpace c = false → trimStart (c :: r) = c :: r.
Proof. intros Hc. simpl. by rewrite Hc. Qed.

Lemma trimStart_spaces (s : jsstring) :
  trimStart s = [] ↔ forallb isSpace s = true.
Proof.
  induction s as [|a s IH]; simpl; [done|].
  destruct (isSpace a); simpl; [done|]. split; discriminate.
Qed.

Lemma leadingSpaces_split (s : jsstring) :
  drop (length (leadingSpaces s)) s = trimStart s.
Proof.
  induction s as [|a s IH]; simpl; [done|].
  by destruct (isSpace a).
Qed.

Lemma leadingSpaces_none (c : N) (r : jsstring) :
  isSpace c = false → leadingSpaces (c :: r) = [].
Proof. intros Hc. simpl. by rewrite Hc. Qed.

Lemma trimEnd_snoc_space (x : jsstring) (c : N) :
  isSpace c = true → trimEnd (x ++ [c]) = trimEnd x.
Proof.
  intros Hc. unfold trimEnd. rewrite rev_app_distr. simpl. by rewrite Hc.
Qed.

Lemma trimEnd_snoc (x : jsstring) (c : N) :
  isSpace c = false → trimEnd (x ++ [c]) = x ++ [c].
Proof.
  intros Hc. unfold trimEnd. rewrite rev_app_distr. simpl. rewrite Hc.
  simpl. by rewrite rev_involutive.
Qed.

Lemma trimEnd_cons (c : N) (r : jsstring) :
  isSpace c = false → trimEnd (c :: r) = c :: trimEnd r.
Proof.
  intros Hc. unfold trimEnd. simpl. rewrite trimStart_snoc by done.
  by rewrite rev_app_distr.
Qed.

Lemma trimEnd_spaces (s : jsstring) :
  trimEnd s = [] ↔ forallb isSpace s = true.
Proof.
  unfold trimEnd. split.
  - intros H. apply (f_equal (@rev N)) in H. rewrite rev_involutive in H.
    simpl in H. apply trimStart_spaces in H.
    rewrite forallb_forall in H. apply forallb_forall. intros x Hx.
    apply H. by apply in_rev in Hx.
  - intros H. replace (trimStart (rev s)) with (@nil N); [done|].
    symmetry. apply trimStart_spaces. rewrite forallb_forall in H.
    apply forallb_forall. intros x Hx. apply H. by apply in_rev.
Qed.

(** A string is trimmed to nothing exactly when it is empty or all white
    space. *)
Lemma trim_spaces (s : jsstring) :
  trim s = [] ↔ forallb isSpace s = true.
Proof.
  unfold trim. rewrite trimEnd_spaces. split.
  - intros H. induction s as [|a s IH]; [done|]. simpl in *.
    destruct (isSpace a) eqn:Ha; simpl in *; [by apply IH|].
    by rewrite Ha in H.
  - intros H. induction s as [|a s IH]; [done|]. simpl in *.
    apply andb_true_iff in H as [-> H]. by apply IH.
Qed.

Lemma endsClean_snoc (b : bool) (x : jsstring) (c : N) :
  endsClean b (x ++ [c]) = negb (isSpace c).
Proof. revert b. induction x as [|a x IH]; intros b; simpl; [done|apply IH]. Qed.

Lemma endsClean_trimEnd (r : jsstring) : endsClean false (trimEnd r) = true.
Proof.
  induction r as [|c r IH] using rev_ind; [done|].
  destruct (isSpace c) eqn:Hc.
  - by rewrite trimEnd_snoc_space.
  - rewrite trimEnd_snoc by done. by rewrite endsClean_snoc, Hc.
Qed.

Lemma trimEnd_fix (s : jsstring) : endsClean false s = true → trimEnd s = s.
Proof.
  destruct s as [|c r] using rev_ind; [done|].
  rewrite endsClean_snoc. intros H. apply trimEnd_snoc.
  by destruct (isSpace c).
Qed.

Lemma tidyFrom_endsClean (b : bool) (s : jsstring) :
  tidyFrom b s = true → endsClean b s = true.
Proof.
  revert b. induction s as [|c r IH]; intros b; simpl; [done|].
  destruct (isSpace c); [|apply IH].
  intros H. apply andb_true_iff in H as [_ H]. by apply IH.
Qed.

Lemma collapse_tidy (b : bool) (t : jsstring) :
  endsClean b t = true → tidyFrom b (collapseFrom b t) = true.
Proof.
  revert b. induction t as [|c r IH]; intros b; simpl; [done|].
  destruct (isSpace c) eqn:Hc; intros H.
  - destruct b; simpl; [by apply IH|]. by rewrite (IH true).
  - simpl. rewrite Hc. by apply IH.
Qed.

Lemma collapse_fix (b : bool) (s : jsstring) :
  tidyFrom b s = true → collapseFrom b s = s.
Proof.
  revert b. induction s as [|c r IH]; intros b; simpl; [done|].
  destruct (isSpace c) eqn:Hc; intros H.
  - apply andb_true_iff in H as [H Hr]. apply andb_true_iff in H as [Hb Hsp].
    apply N.eqb_eq in Hsp as ->. destruct b; [done|]. by rewrite IH.
  - by rewrite IH.
Qed.

Lemma tidy_head (c : N) (r : jsstring) :
  tidy (c :: r) = true → isSpace c = false ∧ tidyFrom false r = true.
Proof.
  unfold tidy. simpl. destruct (isSpace c); [done|]. by intros ->.
Qed.

Lemma tidy_collapse_trim (s : jsstring) : tidy (collapseSpaces (trim s)) = true.
Proof.
  unfold trim, collapseSpaces.
  destruct (trimStart_head s) as [->|(c & r & -> & Hc)]; [done|].
  rewrite trimEnd_cons by done. simpl. rewrite Hc. simpl. rewrite Hc.
  apply collapse_tidy, endsClean_trimEnd.
Qed.

Lemma tidy_fix (s : jsstring) :
  tidy s = true →
  leadingSpaces s = [] ∧ trimStart s = s ∧ collapseSpaces (trim s) = s.
Proof.
  destruct s as [|c r]; [done|]. intros H.
  destruct (tidy_head _ _ H) as [Hc Hr].
  rewrite leadingSpaces_none, trimStart_fix by done. repeat split.
  unfold trim, collapseSpaces. rewrite trimStart_fix by done.
  rewrite trimEnd_cons by done. rewrite trimEnd_fix.
  - simpl. rewrite Hc. by rewrite collapse_fix.
  - by apply tidyFrom_endsClean.
Qed.

Lemma tidyFrom_take_app (b : bool) (s tl : jsstring) (j : nat) :
  (∀ b', tidyFrom b' tl = true) →
  tidyFrom b s = true → tidyFrom b (take j s ++ tl) = true.
Proof.
  intros Htl. revert b j. induction s as [|c r IH]; intros b j H.
  - by destruct j.
  - destruct j as [|j]; [apply Htl|]. simpl in *.
    destruct (isSpace c); [|by apply IH].
    apply andb_true_iff in H as [-> H]. simpl. by apply IH.
Qed.

Lemma tidyFrom_no_newline (b : bool) (s : jsstring) :
  tidyFrom b s = true → LF ∉ s.
Proof.
  revert b. induction s as [|c r IH]; intros b H; [set_solver|].
  simpl in H. apply not_elem_of_cons. destruct (isSpace c) eqn:Hc.
  - apply andb_true_iff in H as [H Hr]. apply andb_true_iff in H as [_ Hsp].
    apply N.eqb_eq in Hsp as ->. split; [done|]. by apply (IH true).
  - split; [|by apply (IH false)]. by intros <-.
Qed.

End SpaceFacts.

(** * Properties of [compressLine] and [truncateLine] *)

Section LineFacts.

Lemma tidy_ellipsis_from (b : bool) : tidyFrom b ellipsis = true.
Proof. by destruct b. Qed.

Lemma tidy_take_ellipsis (s : jsstring) (j : nat) :
  tidy s = true → tidy (take j s ++ ellipsis) = true.
Proof.
  intros H. destruct s as [|c r]; [by destruct j|].
  destruct j as [|j]; [done|].
  change (tidyFrom true (take (S j) (c :: r) ++ ellipsis) = true).
  apply tidyFrom_take_app; [apply tidy_ellipsis_from|done].
Qed.

Lemma indented_take_ellipsis (r : jsstring) (j : nat) :
  indented r = true → indented (take j r ++ ellipsis) = true.
Proof.
  unfold indented. intros H. apply orb_true_iff in H as [H|H].
  { by rewrite tidy_take_ellipsis. }
  destruct r as [|c1 r1]; [done|]. apply andb_true_iff in H as [H1 H].
  destruct j as [|j]; [done|]. apply orb_true_iff. right.
  cbn [take app]. rewrite H1. simpl "&&".
  apply orb_true_iff in H as [H|H].
  { by rewrite tidy_take_ellipsis. }
  destruct r1 as [|c2 r2]; [done|]. apply andb_true_iff in H as [H2 H].
  destruct j as [|j]; [done|]. apply orb_true_iff. right.
  cbn [take app]. rewrite H2. by rewrite tidy_take_ellipsis.
Qed.

Lemma compressLine_cons (c : N) (rest : jsstring) :
  compressLine (c :: rest) =
  let content := if isDiffMarker c then rest else c :: rest in
  (if isDiffMarker c then [c] else [])
  ++ (if (0 <? length (leadingSpaces content))%nat
      then replicate (Nat.min 2 (length (leadingSpaces content))) SP else [])
  ++ collapseSpaces (trim (trimStart content)).
Proof.
  unfold compressLine. cbn [truthy negb].
  destruct (isDiffMarker c); cbn [truthy]; cbv zeta.
  - change (drop 1 (c :: rest)) with rest.
    by rewrite leadingSpaces_split.
  - by rewrite leadingSpaces_split.
Qed.

Lemma trim_trimStart (s : jsstring) : trim (trimStart s) = trim s.
Proof.
  unfold trim. f_equal.
  destruct (trimStart_head s) as [->|(c & r & -> & Hc)]; [done|].
  by apply trimStart_fix.
Qed.

(** The indentation kept: nothing, one space or two. *)
Lemma pad_cases (ind : jsstring) :
  let pad := if (0 <? length ind)%nat
             then replicate (Nat.min 2 (length ind)) SP else [] in
  (ind = [] ∧ pad = []) ∨ (length ind = 1%nat ∧ pad = [SP])
  ∨ ((2 <= length ind)%nat ∧ pad = [SP; SP]).
Proof.
  destruct ind as [|a [|b ind]]; simpl; [by left|right; by left|].
  right; right. split; [lia|done].
Qed.

Lemma indented_0 (r : jsstring) : tidy r = true → indented r = true.
Proof. unfold indented. by intros ->. Qed.

Lemma indented_1 (r : jsstring) : tidy r = true → indented (SP :: r) = true.
Proof.
  unfold indented. intros ->. rewrite N.eqb_refl. apply orb_true_r.
Qed.

Lemma indented_2 (r : jsstring) : tidy r = true → indented (SP :: SP :: r) = true.
Proof.
  unfold indented. intros ->. rewrite !N.eqb_refl. cbn [andb].
  by rewrite !orb_true_r.
Qed.

Lemma compact_marker (c : N) (r : jsstring) :
  isDiffMarker c = true → compact (c :: r) = indented r.
Proof. unfold compact. by intros ->. Qed.

Lemma compressLine_compact (l : jsstring) : compact (compressLine l) = true.
Proof.
  destruct l as [|c rest]; [done|]. rewrite compressLine_cons. cbv zeta.
  rewrite trim_trimStart.
  destruct (isDiffMarker c) eqn:Hm.
  - pose proof (tidy_collapse_trim rest) as Ht.
    destruct (pad_cases (leadingSpaces rest)) as [[_ ->]|[[_ ->]|[_ ->]]];
      cbn [app]; rewrite compact_marker by done.
    + by apply indented_0.
    + by apply indented_1.
    + by apply indented_2.
  - pose proof (tidy_collapse_trim (c :: rest)) as Ht.
    destruct (isSpace c) eqn:Hc.
    + destruct (pad_cases (leadingSpaces (c :: rest))) as [[E _]|[[_ ->]|[_ ->]]].
      * simpl in E. by rewrite Hc in E.
      * cbn [app]. rewrite compact_marker by done. by apply indented_0.
      * cbn [app]. rewrite compact_marker by done. by apply indented_1.
    + rewrite leadingSpaces_none by done. cbn [length Nat.ltb Nat.leb app].
      revert Ht. unfold trim, collapseSpaces. rewrite trimStart_fix by done.
      rewrite trimEnd_cons by done. cbn [collapseFrom]. rewrite Hc.
      unfold compact. by rewrite Hm.
Qed.

Lemma compressLine_fix (l : jsstring) : compact l = true → compressLine l = l.
Proof.
  destruct l as [|c r]; [done|]. intros H. rewrite compressLine_cons. cbv zeta.
  rewrite trim_trimStart. unfold compact in H. destruct (isDiffMarker c) eqn:Hm.
  - unfold indented in H. apply orb_true_iff in H as [H|H].
    { destruct (tidy_fix _ H) as (-> & _ & ->). done. }
    destruct r as [|c1 r1]; [done|]. apply andb_true_iff in H as [H1 H].
    apply N.eqb_eq in H1 as ->. apply orb_true_iff in H as [H|H].
    { destruct (tidy_fix _ H) as (E1 & E2 & E3).
      change (trim (SP :: r1)) with (trim r1). rewrite E3.
      change (leadingSpaces (SP :: r1)) with (SP :: leadingSpaces r1).
      by rewrite E1. }
    destruct r1 as [|c2 r2]; [done|]. apply andb_true_iff in H as [H2 H].
    apply N.eqb_eq in H2 as ->.
    destruct (tidy_fix _ H) as (E1 & E2 & E3).
    change (trim (SP :: SP :: r2)) with (trim r2). rewrite E3.
    change (leadingSpaces (SP :: SP :: r2)) with (SP :: SP :: leadingSpaces r2).
    by rewrite E1.
  - destruct (tidy_fix _ H) as (-> & _ & ->). done.
Qed.

Lemma compact_no_newline (l : jsstring) : compact l = true → LF ∉ l.
Proof.
  destruct l as [|c r]; [set_solver|]. unfold compact.
  destruct (isDiffMarker c) eqn:Hm; [|apply (tidyFrom_no_newline true)].
  assert (Ht : ∀ s, tidy s = true → LF ∉ s).
  { intros [|a s]; [set_solver|apply (tidyFrom_no_newline true)]. }
  assert (Hc : c ≠ LF) by (by intros ->).
  unfold indented. intros H. apply not_elem_of_cons. split; [done|].
  apply orb_true_iff in H as [H|H]; [by apply Ht|].
  destruct r as [|c1 r1]; [done|]. apply andb_true_iff in H as [H1 H].
  apply N.eqb_eq in H1 as ->. apply not_elem_of_cons. split; [done|].
  apply orb_true_iff in H as [H|H]; [by apply Ht|].
  destruct r1 as [|c2 r2]; [done|]. apply andb_true_iff in H as [H2 H].
  apply N.eqb_eq in H2 as ->. apply not_elem_of_cons. split; [done|].
  by apply Ht.
Qed.

Lemma compact_ellipsis : compact ellipsis = true.
Proof. reflexivity. Qed.

(** [truncateLine] either returns the line or cuts it. *)
Lemma truncateLine_cases (l : jsstring) (m : Z) :
  (truncateLine l m = l ∧ (l = [] ∨ Z.of_nat (length l) <= m))
  ∨ (truncateLine l m = take (Z.to_nat (m - 3)) l ++ ellipsis
     ∧ l ≠ [] ∧ m < Z.of_nat (length l)).
Proof.
  unfold truncateLine, substring0. destruct l as [|c r]; [left; auto|].
  cbn [truthy negb orb]. destruct (Z.leb_spec (Z.of_nat (length (c :: r))) m).
  - left. auto.
  - right. done.
Qed.

Lemma truncateLine_compact (l : jsstring) (m : Z) :
  compact l = true → compact (truncateLine l m) = true.
Proof.
  intros H. destruct (truncateLine_cases l m) as [[-> _]|(-> & Hl & _)]; [done|].
  destruct l as [|c r]; [done|].
  destruct (Z.to_nat (m - 3)) as [|k]; [done|].
  cbn [take app]. simpl in *. destruct (isDiffMarker c).
  - by apply indented_take_ellipsis.
  - change (tidy (take (S k) (c :: r) ++ ellipsis) = true).
    by apply tidy_take_ellipsis.
Qed.

Lemma truncateLine_idem (l : jsstring) (m : Z) :
  truncateLine (truncateLine l m) m = truncateLine l m.
Proof.
  destruct (truncateLine_cases l m) as [[E _]|(-> & Hl & Hm)]; [by rewrite !E|].
  destruct (Z.le_gt_cases 3 m) as [H3|H3].
  - unfold truncateLine at 1.
    replace (Z.of_nat (length (take (Z.to_nat (m - 3)) l ++ ellipsis)) <=? m)
      with true; [by rewrite orb_true_r|].
    symmetry. apply Z.leb_le. rewrite length_app, length_take.
    change (length ellipsis) with 3%nat. lia.
  - replace (Z.to_nat (m - 3)) with 0%nat by lia. simpl.
    unfold truncateLine, substring0. cbn [truthy negb orb].
    change (Z.of_nat (length ellipsis)) with 3.
    destruct (Z.leb_spec 3 m); [lia|].
    by replace (Z.to_nat (m - 3)) with 0%nat by lia.
Qed.

Lemma header_take_ellipsis (l : jsstring) (k : nat) :
  isHeaderLine (take k l ++ ellipsis) = true → isHeaderLine l = true.
Proof.
  unfold isHeaderLine. intros H.
  repeat (apply orb_true_iff in H as [H|H]).
  all: apply startsWith_take_app in H;
    [rewrite H; by rewrite ?orb_true_r|].
  all: intros a Ha; repeat (apply elem_of_cons in Ha as [->|Ha]; [done|]);
    by apply elem_of_nil in Ha.
Qed.

Lemma truncateLine_header (l : jsstring) (m : Z) :
  isHeaderLine l = false → isHeaderLine (truncateLine l m) = false.
Proof.
  intros H. destruct (truncateLine_cases l m) as [[-> _]|(-> & _ & _)]; [done|].
  destruct (isHeaderLine (take _ l ++ ellipsis)) eqn:E; [|done].
  apply header_take_ellipsis in E. congruence.
Qed.

Lemma isChangeLine_head (c : N) (r : jsstring) :
  isChangeLine (c :: r) = ((43 =? c) || (45 =? c))%N.
Proof. unfold isChangeLine. simpl. by rewrite !andb_true_r. Qed.

(** A context line stays one when it is cut; a changed line does as long as
    the cut keeps its first character. *)
Lemma truncateLine_context (l : jsstring) (m : Z) :
  isChangeLine l = false → isChangeLine (truncateLine l m) = false.
Proof.
  intros H. destruct (truncateLine_cases l m) as [[-> _]|(-> & Hl & _)]; [done|].
  destruct l as [|c r]; [done|].
  destruct (Z.to_nat (m - 3)) as [|k]; [done|].
  cbn [take app]. by rewrite isChangeLine_head in *.
Qed.

Lemma truncateLine_change (l : jsstring) (m : Z) :
  4 <= m → isChangeLine l = true → isChangeLine (truncateLine l m) = true.
Proof.
  intros Hm H. destruct (truncateLine_cases l m) as [[-> _]|(-> & Hl & _)]; [done|].
  destruct l as [|c r]; [done|].
  destruct (Z.to_nat (m - 3)) as [|k] eqn:E; [lia|].
  cbn [take app]. by rewrite isChangeLine_head in *.
Qed.

End LineFacts.

(** * The loop of [simplify] *)

Section LoopFacts.

Variable config : DiffConfig.

Lemma loopBody_pushed (st : Loop) (raw : jsstring) :
  simplified (loopBody config st raw)
  = simplified st ++ pushed config (skipCount st) [raw].
Proof.
  unfold loopBody, push, isHeader. simpl. unfold isHeader.
  destruct (isHeaderLine (compressLine raw)); [done|].
  destruct (isChangeLine (compressLine raw)); [done|].
  destruct (skipCount st <? contextLines config); [done|].
  destruct (skipCount st =? contextLines config); [done|].
  by rewrite app_nil_r.
Qed.

Lemma loopBody_count (st st' : Loop) (raw : jsstring) :
  skipCount st = skipCount st' →
  skipCount (loopBody config st raw) = skipCount (loopBody config st' raw).
Proof.
  unfold loopBody, push. intros E.
  destruct (isHeaderLine (compressLine raw)); [done|].
  destruct (isChangeLine (compressLine raw)); [done|].
  rewrite <- E.
  destruct (skipCount st <? contextLines config); [done|].
  by destruct (skipCount st =? contextLines config).
Qed.

Lemma fold_count (lines : list jsstring) (st st' : Loop) :
  skipCount st = skipCount st' →
  skipCount (fold_left (loopBody config) lines st)
  = skipCount (fold_left (loopBody config) lines st').
Proof.
  revert st st'. induction lines as [|raw rest IH]; intros st st' E; [done|].
  simpl. apply IH. by apply loopBody_count.
Qed.

Lemma counterAfter_nil (k : Z) : counterAfter config k [] = k.
Proof. reflexivity. Qed.

Lemma counterAfter_cons (k : Z) (raw : jsstring) (rest : list jsstring) :
  counterAfter config k (raw :: rest)
  = counterAfter config
      (if isHeader raw then k
       else if isChangeLine (compressLine raw) then 0
       else if k <? contextLines config then k + 1
       else if k =? contextLines config then k + 1
       else k) rest.
Proof.
  unfold counterAfter. simpl. apply fold_count.
  unfold loopBody, push, isHeader. simpl.
  destruct (isHeaderLine (compressLine raw)); [done|].
  destruct (isChangeLine (compressLine raw)); [done|].
  destruct (k <? contextLines config); [done|].
  by destruct (k =? contextLines config).
Qed.

Lemma counterAfter_app (k : Z) (a b : list jsstring) :
  counterAfter config k (a ++ b)
  = counterAfter config (counterAfter config k a) b.
Proof.
  revert k. induction a as [|raw a IH]; intros k; [done|].
  simpl. by rewrite !counterAfter_cons, IH.
Qed.

Lemma pushed_app (k : Z) (a b : list jsstring) :
  pushed config k (a ++ b)
  = pushed config k a ++ pushed config (counterAfter config k a) b.
Proof.
  revert k. induction a as [|raw a IH]; intros k; [done|].
  rewrite counterAfter_cons. simpl.
  destruct (isHeader raw); [by rewrite IH|].
  destruct (isChangeLine (compressLine raw)); [by rewrite IH|].
  destruct (k <? contextLines config); [by rewrite IH|].
  destruct (k =? contextLines config); by rewrite IH.
Qed.

Lemma fold_pushed (lines : list jsstring) (st : Loop) :
  simplified (fold_left (loopBody config) lines st)
  = simplified st ++ pushed config (skipCount st) lines
  ∧ skipCount (fold_left (loopBody config) lines st)
    = counterAfter config (skipCount st) lines.
Proof.
  split.
  - revert st. induction lines as [|raw rest IH]; intros st.
    { simpl. by rewrite app_nil_r. }
    simpl fold_left. rewrite IH, loopBody_pushed, <- app_assoc. f_equal.
    change (raw :: rest) with ([raw] ++ rest). rewrite pushed_app. f_equal.
    f_equal. unfold counterAfter. simpl. by apply loopBody_count.
  - unfold counterAfter. by apply fold_count.
Qed.

Lemma runLoop_pushed (lines : list jsstring) :
  simplified (runLoop config lines) = pushed config 0 lines
  ∧ skipCount (runLoop config lines) = counterAfter config 0 lines.
Proof. unfold runLoop. by destruct (fold_pushed lines {| simplified := []; skipCount := 0 |}). Qed.

(** Context lines met while the counter stays within [contextLines] are all
    kept, each as its literal. *)
Lemma pushed_context (ctx rest : list jsstring) (k : Z) :
  forallb isContext ctx = true →
  k + Z.of_nat (length ctx) <= contextLines config →
  pushed config k (ctx ++ rest)
  = (literal config <$> ctx) ++ pushed config (k + Z.of_nat (length ctx)) rest.
Proof.
  revert k. induction ctx as [|raw ctx IH]; intros k Hctx Hk.
  { simpl. by rewrite Z.add_0_r. }
  simpl in Hctx. apply andb_true_iff in Hctx as [Hraw Hctx].
  unfold isContext in Hraw. apply andb_true_iff in Hraw as [Hh Hc].
  apply negb_true_iff in Hh, Hc. cbn [app pushed fmap list_fmap].
  unfold isHeader. rewrite Hh, Hc.
  destruct (Z.ltb_spec k (contextLines config)); [|simpl in Hk; lia].
  rewrite IH; [|done|simpl in Hk; lia].
  do 3 f_equal. simpl length. lia.
Qed.

(** The context line met with the counter at [contextLines] becomes the
    marker. *)
Lemma pushed_marker (raw : jsstring) (rest : list jsstring) (k : Z) :
  isContext raw = true → k = contextLines config →
  pushed config k (raw :: rest) = ellipsis :: pushed config (k + 1) rest.
Proof.
  intros Hraw ->. unfold isContext in Hraw.
  apply andb_true_iff in Hraw as [Hh Hc]. apply negb_true_iff in Hh, Hc.
  simpl. unfold isHeader. rewrite Hh, Hc, Z.ltb_irrefl. by rewrite Z.eqb_refl.
Qed.

Lemma freshStart_counter (pre : list jsstring) (seen : bool) (k : Z) :
  sinceChange seen pre = true → (seen = false → k = 0) →
  counterAfter config k pre = 0.
Proof.
  revert seen k. induction pre as [|raw pre IH]; intros seen k H Hk.
  { simpl in H. apply negb_true_iff in H. by apply Hk. }
  rewrite counterAfter_cons. simpl in H. unfold isChange in H.
  destruct (isHeader raw); [by apply (IH seen)|]. simpl in H.
  destruct (isChangeLine (compressLine raw)).
  - by apply (IH false).
  - by apply (IH true).
Qed.

End LoopFacts.

(** * Claims on the diff simplifier *)

Section SimplifierClaims.

(** C5 (as amended): for a configured [maxLineLength] of at least 3, a
    changed line, or a context line met while the counter is below
    [contextLines], is pushed as [truncateLine] of its compressed form; when
    that form is longer than [maxLineLength] the pushed line is exactly
    [maxLineLength] code units long and ends with the three dots, and
    otherwise it is the compressed line itself. *)
Theorem truncateLine_exact (config : DiffConfig) (st : Loop) (raw : jsstring)
  (Hmax : 3 <= maxLineLength config)
  (Hkept : isChange raw = true
           ∨ (isContext raw = true ∧ skipCount st < contextLines config)) :
  let line := compressLine raw in
  let out := truncateLine line (maxLineLength config) in
  simplified (loopBody config st raw) = simplified st ++ [out]
  ∧ (maxLineLength config < Z.of_nat (length line) →
     Z.of_nat (length out) = maxLineLength config
     ∧ drop (length out - 3) out = ellipsis)
  ∧ (Z.of_nat (length line) <= maxLineLength config → out = line).
Proof.
  intros line out. split; [|split].
  - rewrite loopBody_pushed. f_equal. simpl. unfold isChange, isContext, isHeader in *.
    destruct Hkept as [H|[H Hk]]; apply andb_true_iff in H as [Hh Hc];
      apply negb_true_iff in Hh; rewrite Hh.
    + by rewrite Hc.
    + apply negb_true_iff in Hc. rewrite Hc.
      by destruct (Z.ltb_spec (skipCount st) (contextLines config)); [|lia].
  - intros Hlong. subst out.
    destruct (truncateLine_cases line (maxLineLength config))
      as [[_ [E|E]]|(-> & _ & _)].
    + rewrite E in Hlong. simpl in Hlong. lia.
    + lia.
    + rewrite length_app, length_take. change (length ellipsis) with 3%nat.
      split; [lia|].
      replace (_ - 3)%nat with (length (take (Z.to_nat (maxLineLength config - 3)) line))
        by (rewrite length_take; lia).
      by rewrite drop_app_length.
  - intros Hshort. subst out. unfold truncateLine.
    destruct (Z.leb_spec (Z.of_nat (length line)) (maxLineLength config)); [|lia].
    by rewrite orb_true_r.
Qed.

Lemma truncateLine_exact_witness :
  let config := {| enabled := true; contextLines := 3; maxLineLength := 8 |} in
  let st := {| simplified := []; skipCount := 0 |} in
  let raw := lit "+const   answer = 42;" in
  simplified (loopBody config st raw) = [lit "+cons..."]
  ∧ (8 < Z.of_nat (length (compressLine raw)) →
     Z.of_nat (length (lit "+cons...")) = 8
     ∧ drop (length (lit "+cons...") - 3) (lit "+cons...") = ellipsis)
  ∧ (Z.of_nat (length (compressLine raw)) <= 8 →
     lit "+cons..." = compressLine raw).
Proof.
  apply (truncateLine_exact
           {| enabled := true; contextLines := 3; maxLineLength := 8 |}
           {| simplified := []; skipCount := 0 |}
           (lit "+const   answer = 42;")).
  - simpl. lia.
  - left. reflexivity.
Defined.

(** C5, counterexample: with [maxLineLength = 2] the changed line [+abcd]
    comes out as the three dots, which is 3 code units long, not 2. *)
Lemma truncateLine_exact_counterexample :
  let config := {| enabled := true; contextLines := 3; maxLineLength := 2 |} in
  isChange (lit "+abcd") = true
  ∧ maxLineLength config < Z.of_nat (length (compressLine (lit "+abcd")))
  ∧ simplifyWith config (lit "+abcd") = lit "..."
  ∧ Z.of_nat (length (simplifyWith config (lit "+abcd"))) ≠ maxLineLength config.
Proof. repeat split; try reflexivity. vm_compute. discriminate. Qed.

(** C2 (as amended): with simplification enabled and [contextLines] not
    negative, a run of exactly [contextLines + 1] consecutive context lines
    that starts the diff or comes after a changed line, with at most header
    lines in between, is pushed as its first [contextLines] lines, each
    compressed and truncated, followed by one marker line; the lines before
    it are pushed as they would be alone, and those after it are met with the
    counter at [contextLines + 1]. *)
Theorem simplify_boundary (config : DiffConfig) (diff : jsstring)
  (pre run post : list jsstring)
  (Hon : enabled config = true)
  (Hn : 0 <= contextLines config)
  (Hlines : split diff = pre ++ run ++ post)
  (Hfresh : freshStart pre = true)
  (Hrun : forallb isContext run = true)
  (Hlen : Z.of_nat (length run) = contextLines config + 1) :
  simplifyWith config diff
  = join (pushed config 0 pre
          ++ (literal config <$> take (Z.to_nat (contextLines config)) run)
          ++ [ellipsis]
          ++ pushed config (contextLines config + 1) post).
Proof.
  unfold simplifyWith. rewrite Hon. cbn [negb]. f_equal.
  destruct (runLoop_pushed config (split diff)) as [-> _].
  rewrite Hlines, pushed_app. f_equal.
  rewrite (freshStart_counter config pre false 0) by done.
  set (n := Z.to_nat (contextLines config)).
  rewrite <- (take_drop n run) at 1. rewrite <- app_assoc.
  assert (Hsplit : forallb isContext (take n run) = true
                   ∧ forallb isContext (drop n run) = true).
  { rewrite <- (take_drop n run), forallb_app in Hrun.
    by apply andb_true_iff in Hrun. }
  destruct Hsplit as [Htake Hdrop].
  assert (Hn' : length (take n run) = n) by (rewrite length_take; lia).
  rewrite pushed_context; [|done|lia]. f_equal.
  assert (Hd : length (drop n run) = 1%nat) by (rewrite length_drop; lia).
  destruct (drop n run) as [|last [|? ?]]; [done| |done].
  simpl in Hdrop. rewrite andb_true_r in Hdrop.
  cbn [app]. rewrite pushed_marker; [|done|lia].
  do 2 f_equal. lia.
Qed.

Lemma simplify_boundary_witness :
  simplifyWith {| enabled := true; contextLines := 1; maxLineLength := 120 |}
    (lit "+x
Index: f
 a
 b
 c")
  = join (pushed {| enabled := true; contextLines := 1; maxLineLength := 120 |}
            0 [lit "+x"; lit "Index: f"]
          ++ (literal {| enabled := true; contextLines := 1; maxLineLength := 120 |}
                <$> take 1 [lit " a"; lit " b"])
          ++ [ellipsis]
          ++ pushed {| enabled := true; contextLines := 1; maxLineLength := 120 |}
               2 [lit " c"]).
Proof.
  apply (simplify_boundary
           {| enabled := true; contextLines := 1; maxLineLength := 120 |}
           _ [lit "+x"; lit "Index: f"] [lit " a"; lit " b"] [lit " c"]);
    try reflexivity.
  simpl. lia.
Defined.

(** C2, counterexample: with [contextLines = 1], the two context lines after
    the header form a maximal run of [contextLines + 1] lines, yet nothing of
    them is kept literally: the context line before the header has used up
    the counter, and the run is pushed as the marker alone. *)
Lemma simplify_boundary_counterexample :
  let config := {| enabled := true; contextLines := 1; maxLineLength := 120 |} in
  let diff := lit " a
Index: x
 b
 c" in
  let pre := [lit " a"; lit "Index: x"] in
  let run := [lit " b"; lit " c"] in
  split diff = pre ++ run ++ []
  ∧ forallb isContext run = true
  ∧ Z.of_nat (length run) = contextLines config + 1
  ∧ isContext (lit "Index: x") = false
  ∧ simplifyWith config diff = lit " a
Index: x
..."
  ∧ ¬ ∃ before after,
        simplified (runLoop config (split diff))
        = before ++ [literal config (lit " b"); ellipsis] ++ after.
Proof.
  repeat split; try reflexivity.
  intros (before & after & H). vm_compute in H.
  destruct before as [|? [|? [|? [|? ?]]]]; simplify_eq.
Qed.

(** C3 (as amended): a header line is pushed compressed and untruncated,
    whatever the counter, and leaves the counter as it is; a changed line is
    pushed truncated and resets the counter, so that the context lines that
    follow it, up to [contextLines] of them, are kept literally. *)
Theorem header_keeps_change_resets (config : DiffConfig)
  (pre post ctx : list jsstring) (header change : jsstring)
  (Hh : isHeader header = true)
  (Hc : isChange change = true)
  (Hctx : forallb isContext ctx = true)
  (Hlen : Z.of_nat (length ctx) <= contextLines config) :
  (simplified (runLoop config (pre ++ header :: post))
   = simplified (runLoop config pre)
     ++ compressLine header :: pushed config (skipCount (runLoop config pre)) post
   ∧ skipCount (runLoop config (pre ++ [header])) = skipCount (runLoop config pre))
  ∧ (simplified (runLoop config (pre ++ change :: ctx ++ post))
     = simplified (runLoop config pre)
       ++ literal config change :: (literal config <$> ctx)
       ++ pushed config (Z.of_nat (length ctx)) post
     ∧ skipCount (runLoop config (pre ++ [change])) = 0).
Proof.
  unfold isChange in Hc. apply andb_true_iff in Hc as [Hc1 Hc2].
  apply negb_true_iff in Hc1.
  pose proof (runLoop_pushed config) as R.
  repeat split.
  - rewrite !(proj1 (R _)), (proj2 (R _)), pushed_app. f_equal.
    simpl. by rewrite Hh.
  - rewrite !(proj2 (R _)), counterAfter_app, counterAfter_cons. by rewrite Hh.
  - rewrite !(proj1 (R _)), pushed_app. f_equal.
    simpl. rewrite Hc1, Hc2. f_equal.
    rewrite pushed_context; [|done|lia]. by rewrite Z.add_0_l.
  - rewrite !(proj2 (R _)), counterAfter_app, counterAfter_cons.
    by rewrite Hc1, Hc2.
Qed.

Lemma header_keeps_change_resets_witness :
  let config := {| enabled := true; contextLines := 1; maxLineLength := 120 |} in
  (simplified (runLoop config ([lit " a"; lit " b"] ++ lit "Index: x" :: [lit " c"]))
   = simplified (runLoop config [lit " a"; lit " b"])
     ++ compressLine (lit "Index: x")
        :: pushed config (skipCount (runLoop config [lit " a"; lit " b"])) [lit " c"]
   ∧ skipCount (runLoop config ([lit " a"; lit " b"] ++ [lit "Index: x"]))
     = skipCount (runLoop config [lit " a"; lit " b"]))
  ∧ (simplified (runLoop config ([lit " a"; lit " b"] ++ lit "-y" :: [lit " d"] ++ [lit " c"]))
     = simplified (runLoop config [lit " a"; lit " b"])
       ++ literal config (lit "-y") :: (literal config <$> [lit " d"])
       ++ pushed config (Z.of_nat (length [lit " d"])) [lit " c"]
     ∧ skipCount (runLoop config ([lit " a"; lit " b"] ++ [lit "-y"])) = 0).
Proof.
  apply (header_keeps_change_resets
           {| enabled := true; contextLines := 1; maxLineLength := 120 |}
           [lit " a"; lit " b"] [lit " c"] [lit " d"] (lit "Index: x") (lit "-y"));
    reflexivity.
Defined.

(** C3, counterexample: with [contextLines = 1], the header does not reset
    the counter: it is still 2 after it, and the context line that follows
    the header is dropped instead of being kept literally. *)
Lemma header_keeps_change_resets_counterexample :
  let config := {| enabled := true; contextLines := 1; maxLineLength := 120 |} in
  let diff := lit " a
 b
Index: x
 c" in
  isHeader (lit "Index: x") = true
  ∧ isContext (lit " c") = true
  ∧ skipCount (runLoop config [lit " a"; lit " b"; lit "Index: x"]) = 2
  ∧ simplifyWith config diff = lit " a
...
Index: x"
  ∧ literal config (lit " c") ∉ simplified (runLoop config (split diff)).
Proof.
  repeat split; try reflexivity.
  vm_compute. intros H. repeat (apply elem_of_cons in H as [H|H]; [discriminate|]).
  by apply elem_of_nil in H.
Qed.

End SimplifierClaims.

(** * Simplifying twice *)

Section Idempotence.

Variable config : DiffConfig.

Lemma literal_compact (raw : jsstring) : compact (literal config raw) = true.
Proof. apply truncateLine_compact, compressLine_compact. Qed.

Lemma pushed_compact (k : Z) (lines : list jsstring) :
  Forall (λ l, compact l = true) (pushed config k lines).
Proof.
  revert k. induction lines as [|raw rest IH]; intros k; simpl; [constructor|].
  destruct (isHeader raw).
  { constructor; [apply compressLine_compact|apply IH]. }
  destruct (isChangeLine (compressLine raw)).
  { constructor; [apply literal_compact|apply IH]. }
  destruct (k <? contextLines config).
  { constructor; [apply literal_compact|apply IH]. }
  destruct (k =? contextLines config); [|apply IH].
  constructor; [apply compact_ellipsis|apply IH].
Qed.

(** Nothing is pushed for a non-empty list of lines only when the counter is
    already past [contextLines]. *)
Lemma pushed_nil (k : Z) (lines : list jsstring) :
  lines ≠ [] → pushed config k lines = [] → contextLines config < k.
Proof.
  destruct lines as [|raw rest]; [done|]. intros _. simpl.
  destruct (isHeader raw); [done|].
  destruct (isChangeLine (compressLine raw)); [done|].
  destruct (Z.ltb_spec k (contextLines config)); [done|].
  destruct (Z.eqb_spec k (contextLines config)); [done|]. lia.
Qed.

Hypothesis Hmax : 4 <= maxLineLength config.

(** A pushed line is pushed unchanged, and in the same way, when the loop
    meets it again. *)
Lemma compressed_again (raw : jsstring) :
  compressLine (compressLine raw) = compressLine raw.
Proof. apply compressLine_fix, compressLine_compact. Qed.

Lemma literal_again (raw : jsstring) :
  compressLine (literal config raw) = literal config raw
  ∧ literal config (literal config raw) = literal config raw.
Proof.
  assert (E : compressLine (literal config raw) = literal config raw)
    by apply compressLine_fix, literal_compact.
  split; [done|]. unfold literal at 1. rewrite E. apply truncateLine_idem.
Qed.

Lemma pushed_idem (k : Z) (lines : list jsstring) :
  pushed config k (pushed config k lines) = pushed config k lines.
Proof.
  revert k. induction lines as [|raw rest IH]; intros k; [done|].
  cbn [pushed]. unfold isHeader.
  destruct (isHeaderLine (compressLine raw)) eqn:Hh.
  { cbn [pushed]. unfold isHeader. by rewrite compressed_again, Hh, IH. }
  destruct (literal_again raw) as [E1 E2].
  assert (Hh' : isHeaderLine (literal config raw) = false)
    by (by apply truncateLine_header).
  destruct (isChangeLine (compressLine raw)) eqn:Hc.
  { cbn [pushed]. unfold isHeader. rewrite E1, Hh'.
    assert (isChangeLine (literal config raw) = true) as ->
      by (by apply truncateLine_change).
    by rewrite E2, IH. }
  assert (Hc' : isChangeLine (literal config raw) = false)
    by (by apply truncateLine_context).
  destruct (k <? contextLines config) eqn:Hlt.
  { cbn [pushed]. unfold isHeader. by rewrite E1, Hh', Hc', Hlt, E2, IH. }
  destruct (k =? contextLines config) eqn:Heq; [|apply IH].
  cbn [pushed]. unfold isHeader.
  change (compressLine ellipsis) with ellipsis.
  change (isHeaderLine ellipsis) with false.
  change (isChangeLine ellipsis) with false. cbv iota.
  by rewrite Hlt, Heq, IH.
Qed.

Lemma simplifyWith_idem (diff : jsstring) :
  simplifyWith config (simplifyWith config diff) = simplifyWith config diff.
Proof.
  unfold simplifyWith. destruct (enabled config); [|done]. cbn [negb].
  f_equal. rewrite !(proj1 (runLoop_pushed config _)).
  destruct (pushed config 0 (split diff)) as [|o os] eqn:E.
  - apply pushed_nil in E; [|apply split_nonempty].
    change (split (join [])) with [@nil N]. cbn [pushed].
    change (isHeader []) with false. change (isChangeLine (compressLine [])) with false.
    cbv iota. destruct (Z.ltb_spec 0 (contextLines config)); [lia|].
    by destruct (Z.eqb_spec 0 (contextLines config)); [lia|].
  - rewrite split_join; [|done|].
    + rewrite <- E. apply pushed_idem.
    + rewrite <- E. eapply Forall_impl; [apply pushed_compact|].
      intros l. apply compact_no_newline.
Qed.

End Idempotence.

Section IdempotenceClaim.

(** C4 (as amended): when [maxLineLength] is at least 4, or simplification
    is disabled, simplifying the result of [simplify] again gives it back
    unchanged; the second call runs under the configuration the first one
    cached, whatever the settings have become in between. *)
Theorem simplify_idempotent (live live' : DiffConfig) (st : Static)
  (diff : jsstring)
  (Hcfg : enabled (getConfig live st).1 = false
          ∨ 4 <= maxLineLength (getConfig live st).1) :
  (simplify live' (simplify live st diff).2 (simplify live st diff).1).1
  = (simplify live st diff).1.
Proof.
  assert (H : ∀ c d, enabled c = false ∨ 4 <= maxLineLength c →
                     simplifyWith c (simplifyWith c d) = simplifyWith c d).
  { intros c d [Hoff|Hmax]; [|by apply simplifyWith_idem].
    unfold simplifyWith. by rewrite Hoff. }
  unfold simplify, getConfig in *. destruct st as [[c|]]; simpl in *; by apply H.
Qed.

Lemma simplify_idempotent_witness :
  (simplify {| enabled := true; contextLines := 9; maxLineLength := 80 |}
     (simplify {| enabled := true; contextLines := 1; maxLineLength := 8 |}
        {| configCache := None |} (lit "+a   long   line
 b
 c
 d")).2
     (simplify {| enabled := true; contextLines := 1; maxLineLength := 8 |}
        {| configCache := None |} (lit "+a   long   line
 b
 c
 d")).1).1
  = (simplify {| enabled := true; contextLines := 1; maxLineLength := 8 |}
       {| configCache := None |} (lit "+a   long   line
 b
 c
 d")).1.
Proof.
  apply (simplify_idempotent
           {| enabled := true; contextLines := 1; maxLineLength := 8 |}
           {| enabled := true; contextLines := 9; maxLineLength := 80 |}
           {| configCache := None |}).
  right. simpl. lia.
Defined.

(** C4, counterexample: with [maxLineLength = 3] the two changed lines are
    cut down to the three dots; simplified again, these two lines are context
    lines, and with [contextLines = 0] only one marker is left of them. *)
Lemma simplify_idempotent_counterexample :
  let config := {| enabled := true; contextLines := 0; maxLineLength := 3 |} in
  let st := {| configCache := Some config |} in
  let diff := lit "+abcd
+efgh" in
  (simplify config st diff).1 = lit "...
..."
  ∧ (simplify config st (simplify config st diff).1).1 = lit "..."
  ∧ (simplify config st (simplify config st diff).1).1 ≠ (simplify config st diff).1.
Proof. repeat split; try reflexivity. vm_compute. discriminate. Qed.

End IdempotenceClaim.

(** * Claims on [SvnProvider.getDiff] *)

Section GetDiffClaims.

Import SvnProvider.

Variable getMessage : jsstring → jsstring.
Variable format : jsstring → jsstring → jsstring.
Variable exec : jsstring → ExecResult.
Variable enableSimplification : option bool.
Variable getDiffConfig : DiffConfig.


End GetDiffClaims.

Section GetDiffWitness.

Import SvnProvider.


End GetDiffWitness.

(** * Claims on the configuration cache *)

Section CacheClaims.

Import ConfigurationManager.

Variable V : Type.
Variable ConfigKey : Type.
Variable ConfigKeys : ConfigKey → jsstring.
Variable EXTENSION_NAME : jsstring.
Variable CONFIG_SCHEMA : list (jsstring * ConfigNode).

(** An entry of the cache changes only for a reported key whose value, read
    again, is defined; the settings handle is not touched. *)
Lemma updateConfigCache_lookup (changedKeys : list jsstring) (m : Manager V)
  (k : jsstring) :
  (k ∈ changedKeys → configuration V m k = None) →
  configCache V (updateConfigCache V changedKeys m) !! k = configCache V m !! k
  ∧ configuration V (updateConfigCache V changedKeys m) = configuration V m.
Proof.
  unfold updateConfigCache. revert m.
  induction changedKeys as [|key keys IH]; intros m Hk; [done|].
  cbn [fold_left].
  change (getUpdatedValue V m key) with (configuration V m key).
  destruct (configuration V m key) as [value|] eqn:Hv.
  - edestruct IH as [E1 E2]; [|rewrite E1, E2].
    + intros Hin. apply Hk. by apply list_elem_of_further.
    + split; [|done]. simpl. apply lookup_insert_ne. intros ->.
      rewrite Hk in Hv; [done|apply list_elem_of_here].
  - apply IH. intros Hin. apply Hk. by apply list_elem_of_further.
Qed.

Lemma getConfig_cached (key : ConfigKey) (m : Manager V) (v : option V) :
  configCache V m !! replaceFirst (lit "dish-ai-commit.") [] (ConfigKeys key)
  = Some v →
  (getConfig V ConfigKey ConfigKeys key true m).1 = v.
Proof.
  intros H. unfold getConfig, has, get. cbn [negb].
  rewrite bool_decide_eq_true_2 by (by rewrite H). simpl. by rewrite H.
Qed.

(** C7: after a change event that the schema walk reports for exactly one
    leaf key, the cache entry of every other key is what it was, and
    [getConfig] with the cache on, for a key cached before the event, still
    returns the value cached then. *)
Theorem cache_frame (affects : jsstring → bool) (fresh : jsstring → option V)
  (m : Manager V) (changed : jsstring) (key : ConfigKey) (v : option V)
  (Hone : getChangedConfigurationKeys EXTENSION_NAME CONFIG_SCHEMA affects
          = [changed])
  (Hother : replaceFirst (lit "dish-ai-commit.") [] (ConfigKeys key) ≠ changed)
  (Hcached : configCache V m
             !! replaceFirst (lit "dish-ai-commit.") [] (ConfigKeys key) = Some v) :
  let m' := (onDidChangeConfiguration V EXTENSION_NAME CONFIG_SCHEMA
               affects fresh m).1 in
  (∀ k, k ≠ changed → configCache V m' !! k = configCache V m !! k)
  ∧ (getConfig V ConfigKey ConfigKeys key true m').1 = v.
Proof.
  intros m'. subst m'. unfold onDidChangeConfiguration. rewrite Hone.
  change (0 <? length [changed])%nat with true. cbv iota. cbn [fst].
  assert (Hk : ∀ k, k ≠ changed →
     configCache V (updateConfigCache V [changed] m) !! k = configCache V m !! k).
  { intros k Hne. apply updateConfigCache_lookup.
    by intros ->%list_elem_of_singleton. }
  split; [done|]. apply getConfig_cached. cbn [configCache]. by rewrite Hk.
Qed.

(** C10: when a change event reports a key whose value, read again, is
    undefined, the cache entry of that key is left as it was, and [getConfig]
    with the cache on returns the value cached before the event. *)
Theorem cache_keeps_stale (affects : jsstring → bool)
  (fresh : jsstring → option V) (m : Manager V) (key : ConfigKey) (v : option V)
  (Hchanged : replaceFirst (lit "dish-ai-commit.") [] (ConfigKeys key)
              ∈ getChangedConfigurationKeys EXTENSION_NAME CONFIG_SCHEMA affects)
  (Hundefined : configuration V m
                  (replaceFirst (lit "dish-ai-commit.") [] (ConfigKeys key)) = None)
  (Hcached : configCache V m
             !! replaceFirst (lit "dish-ai-commit.") [] (ConfigKeys key) = Some v) :
  let m' := (onDidChangeConfiguration V EXTENSION_NAME CONFIG_SCHEMA
               affects fresh m).1 in
  configCache V m' !! replaceFirst (lit "dish-ai-commit.") [] (ConfigKeys key)
  = Some v
  ∧ (getConfig V ConfigKey ConfigKeys key true m').1 = v.
Proof.
  intros m'. subst m'. unfold onDidChangeConfiguration.
  set (keys := getChangedConfigurationKeys _ _ _) in *.
  set (k := replaceFirst _ _ _) in *.
  assert (Hk : configCache V (updateConfigCache V keys m) !! k = Some v).
  { rewrite <- Hcached. by apply updateConfigCache_lookup. }
  destruct (0 <? length keys)%nat eqn:Hlen.
  - split; [done|]. by apply getConfig_cached.
  - split; [done|]. by apply getConfig_cached.
Qed.

End CacheClaims.

Section CacheWitnesses.

Import ConfigurationManager.

Lemma cache_frame_witness :
  let schema :=
    [(lit "openai", Category [(lit "apiKey", ConfigValue);
                              (lit "baseUrl", ConfigValue)]);
     (lit "model", ConfigValue)] in
  let m := {| configuration := λ _, Some 7;
              configCache := {[ lit "openai.apiKey" := Some 1 ]} |} in
  let m' := (onDidChangeConfiguration Z (lit "dish-ai-commit") schema
               (λ k, bool_decide (k = lit "dish-ai-commit.model"))
               (λ _, Some 8) m).1 in
  (∀ k, k ≠ lit "model" → configCache Z m' !! k = configCache Z m !! k)
  ∧ (getConfig Z KnownKey KnownKeys OPENAI_API_KEY true m').1 = Some 1.
Proof.
  apply (cache_frame Z KnownKey KnownKeys (lit "dish-ai-commit")
           [(lit "openai", Category [(lit "apiKey", ConfigValue);
                                     (lit "baseUrl", ConfigValue)]);
            (lit "model", ConfigValue)]
           (λ k, bool_decide (k = lit "dish-ai-commit.model")) (λ _, Some 8)
           {| configuration := λ _, Some 7;
              configCache := {[ lit "openai.apiKey" := Some 1 ]} |}
           (lit "model") OPENAI_API_KEY (Some 1)).
  - reflexivity.
  - vm_compute. discriminate.
  - vm_compute. reflexivity.
Defined.

Lemma cache_keeps_stale_witness :
  let schema :=
    [(lit "openai", Category [(lit "apiKey", ConfigValue);
                              (lit "baseUrl", ConfigValue)]);
     (lit "model", ConfigValue)] in
  let m := {| configuration := λ _, None;
              configCache := {[ lit "openai.apiKey" := Some 1 ]} |} in
  let m' := (onDidChangeConfiguration Z (lit "dish-ai-commit") schema
               (λ k, bool_decide (k = lit "dish-ai-commit.openai.apiKey"))
               (λ _, None) m).1 in
  configCache Z m' !! lit "openai.apiKey" = Some (Some 1)
  ∧ (getConfig Z KnownKey KnownKeys OPENAI_API_KEY true m').1 = Some 1.
Proof.
  apply (cache_keeps_stale Z KnownKey KnownKeys (lit "dish-ai-commit")
           [(lit "openai", Category [(lit "apiKey", ConfigValue);
                                     (lit "baseUrl", ConfigValue)]);
            (lit "model", ConfigValue)]
           (λ k, bool_decide (k = lit "dish-ai-commit.openai.apiKey"))
           (λ _, None)
           {| configuration := λ _, None;
              configCache := {[ lit "openai.apiKey" := Some 1 ]} |}
           OPENAI_API_KEY (Some 1)).
  - vm_compute. apply list_elem_of_here.
  - reflexivity.
  - vm_compute. reflexivity.
Defined.

End CacheWitnesses.

(** * Claims on [OpenAIProvider.generateResponse] *)

Section RetryClaims.

Import OpenAIProvider Retry.

Variable getMessage : jsstring → jsstring.
Variable format : jsstring → option jsstring → jsstring.
Variable generateCommitMessageSystemPrompt :
  jsstring → bool → bool → jsstring → jsstring.
Variable defaultLanguage : jsstring.
Variable vendor : nat → ChatRequest → VendorResult.
Variable params : AIRequestParams.

Local Abbreviation run fuel :=
  (generateResponse getMessage format generateCommitMessageSystemPrompt
     defaultLanguage vendor fuel params).
Local Abbreviation budget := (budget params).
Local Abbreviation request :=
  (request generateCommitMessageSystemPrompt defaultLanguage params).
Local Abbreviation answer :=
  (answer generateCommitMessageSystemPrompt defaultLanguage vendor params).
Local Abbreviation retryable :=
  (retryable generateCommitMessageSystemPrompt defaultLanguage vendor params).

(** One pass of the loop, up to the vendor's answer [A]; the retry taken
    after a failure with the phrase; and the parts of the claim that do not
    depend on the outcome. *)
Local Ltac pass Hstep A :=
  cbn [loop]; rewrite Hstep; cbn [sent length retries maxInputLength app];
  rewrite <- A.

Local Ltac retried P T := rewrite P, T; cbn [andb].

Local Ltac conclude Hb H0 :=
  split; [reflexivity|]; split; [exact Hb|]; split; [exact H0|].

(** Multiplying by 0.8 and flooring, on integers. *)
Lemma shrink_div (n : Z) : shrink n = 4 * n / 5.
Proof.
  unfold shrink, Qfloor, Qmult, inject_Z. simpl.
  replace (n * 8) with (4 * n * 2) by lia.
  change (Z.pos (1 * 10)) with (5 * 2).
  by rewrite Z.div_mul_cancel_r.
Qed.


End RetryClaims.

(** * Claims on [escapeHtml] and the review panel *)

Section EscapeClaims.

Import ReviewCodeCommand Html.

Lemma replaceAll_app (c : N) (r a b : jsstring) :
  replaceAll c r (a ++ b) = replaceAll c r a ++ replaceAll c r b.
Proof.
  induction a as [|x a IH]; [done|]. simpl. by rewrite IH, app_assoc.
Qed.

Lemma escapeHtml_cons (x : N) (s : jsstring) :
  escapeHtml (x :: s) = escapeChar x ++ escapeHtml s.
Proof.
  unfold escapeHtml. cbn [replaceAll]. rewrite !replaceAll_app. f_equal.
  unfold escapeChar.
  destruct (N.eqb_spec x 38) as [->|_]; [reflexivity|].
  cbn [replaceAll app]. destruct (N.eqb_spec x 60) as [->|_]; [reflexivity|].
  cbn [replaceAll app]. destruct (N.eqb_spec x 62) as [->|_]; [reflexivity|].
  cbn [replaceAll app]. destruct (N.eqb_spec x 34) as [->|_]; [reflexivity|].
  cbn [replaceAll app]. by destruct (N.eqb_spec x 39) as [->|_].
Qed.

(** What one code unit is turned into: itself when it is none of the five,
    and else its entity. *)
Lemma escapeChar_cases (x : N) :
  (escapeChar x = [x] ∧ x ≠ 38 ∧ x ≠ 60 ∧ x ≠ 62 ∧ x ≠ 34 ∧ x ≠ 39)%N
  ∨ (escapeChar x ∈ entities).
Proof.
  unfold escapeChar, entities.
  destruct (N.eqb_spec x 38); [right; subst; repeat first [apply list_elem_of_here|apply list_elem_of_further]|].
  destruct (N.eqb_spec x 60); [right; subst; repeat first [apply list_elem_of_here|apply list_elem_of_further]|].
  destruct (N.eqb_spec x 62); [right; subst; repeat first [apply list_elem_of_here|apply list_elem_of_further]|].
  destruct (N.eqb_spec x 34); [right; subst; repeat first [apply list_elem_of_here|apply list_elem_of_further]|].
  destruct (N.eqb_spec x 39); [right; subst; repeat first [apply list_elem_of_here|apply list_elem_of_further]|]. by left.
Qed.

Lemma entity_cases (e : jsstring) :
  e ∈ entities →
  e = lit "&amp;" ∨ e = lit "&lt;" ∨ e = lit "&gt;" ∨ e = lit "&quot;"
  ∨ e = lit "&#039;".
Proof.
  unfold entities. intros H.
  repeat (apply elem_of_cons in H as [->|H]; [tauto|]).
  by apply elem_of_nil in H.
Qed.

Lemma startsWith_app (e rest : jsstring) : startsWith (e ++ rest) e = true.
Proof.
  induction e as [|a e IH]; [done|]. simpl. by rewrite N.eqb_refl.
Qed.

Lemma occurrences_app (c : N) (a b : jsstring) :
  occurrences c (a ++ b) = (occurrences c a + occurrences c b)%nat.
Proof. unfold occurrences. by rewrite List.filter_app, length_app. Qed.

Lemma escapeHtml_clean (s : jsstring) (c : N) :
  c ∈ escapeHtml s → (c ≠ 60 ∧ c ≠ 62 ∧ c ≠ 34 ∧ c ≠ 39)%N.
Proof.
  induction s as [|x s IH]; [by intros ?%elem_of_nil|].
  rewrite escapeHtml_cons. intros [H|H]%elem_of_app; [|by apply IH].
  destruct (escapeChar_cases x) as [(E & ? & ? & ? & ? & ?)|E].
  - rewrite E in H. by apply list_elem_of_singleton in H as ->.
  - apply entity_cases in E as [E|[E|[E|[E|E]]]]; rewrite E in H;
      repeat (apply elem_of_cons in H as [->|H]; [done|]);
      by apply elem_of_nil in H.
Qed.

Lemma escapeHtml_none (s : jsstring) (c : N) :
  (c = 60 ∨ c = 62 ∨ c = 34 ∨ c = 39)%N → occurrences c (escapeHtml s) = 0%nat.
Proof.
  intros Hc. unfold occurrences.
  assert (H : ∀ x, x ∈ escapeHtml s → (c =? x)%N = false).
  { intros x Hx. apply escapeHtml_clean in Hx. apply N.eqb_neq. lia. }
  induction (escapeHtml s) as [|x l IH]; [done|]. simpl.
  rewrite H by apply list_elem_of_here. apply IH.
  intros y Hy. apply H. by apply list_elem_of_further.
Qed.

Lemma escapeHtml_ampersand (s : jsstring) (i : nat) :
  escapeHtml s !! i = Some 38%N →
  ∃ e, e ∈ entities ∧ startsWith (drop i (escapeHtml s)) e = true.
Proof.
  revert i. induction s as [|x s IH]; intros i; [done|].
  rewrite escapeHtml_cons. intros H.
  destruct (decide (i < length (escapeChar x))%nat) as [Hi|Hi].
  - rewrite lookup_app_l in H by done.
    destruct (escapeChar_cases x) as [(E & ? & _)|E].
    + rewrite E in H, Hi. destruct i as [|i]; [|simpl in Hi; lia].
      simpl in H. congruence.
    + exists (escapeChar x). split; [done|].
      assert (i = 0%nat) as ->; [|apply startsWith_app].
      apply entity_cases in E as [E|[E|[E|[E|E]]]]; rewrite E in H;
        do 7 (destruct i as [|i]; [done|]); done.
  - rewrite lookup_app_r in H by lia.
    destruct (IH _ H) as (e & He & Hs). exists e. split; [done|].
    by rewrite drop_app_ge by lia.
Qed.

Variable basename : jsstring → jsstring.

Lemma reviewSection_occurrences (entry : jsstring * jsstring) (c : N) :
  (c = 60 ∨ c = 62 ∨ c = 34)%N →
  occurrences c (reviewSection basename entry) = 6%nat.
Proof.
  intros Hc. unfold reviewSection. rewrite !occurrences_app.
  rewrite !escapeHtml_none by lia.
  destruct Hc as [-> | [-> | ->]]; reflexivity.
Qed.

Lemma reviewSection_apostrophes (entry : jsstring * jsstring) :
  occurrences 39 (reviewSection basename entry) = 0%nat.
Proof.
  unfold reviewSection. rewrite !occurrences_app.
  rewrite !escapeHtml_none by lia. reflexivity.
Qed.

Lemma reviewHtml_occurrences (fileReviews : list (jsstring * jsstring)) (c : N)
  (n : nat) :
  c ≠ LF →
  (∀ entry, occurrences c (reviewSection basename entry) = n) →
  occurrences c (reviewHtml basename fileReviews) = (n * length fileReviews)%nat.
Proof.
  intros Hc Hn. unfold reviewHtml.
  induction fileReviews as [|e [|e' l] IH]; [unfold occurrences; simpl; lia| |].
  - simpl. rewrite Hn. lia.
  - change (joinWith [LF] (reviewSection basename <$> e :: e' :: l))
      with (reviewSection basename e ++ [LF]
            ++ joinWith [LF] (reviewSection basename <$> e' :: l)).
    rewrite !occurrences_app, IH, Hn.
    assert (occurrences c [LF] = 0%nat) as ->.
    { unfold occurrences. simpl. by destruct (N.eqb_spec c LF). }
    simpl. lia.
Qed.

(** C9: the result of [escapeHtml] holds none of the characters [<], [>],
    the double quote and the apostrophe, and each [&] in it starts one of the
    five entities.  So the file names and review texts add no markup to the
    body of the panel: whatever they are, it has six [<], six [>] and six
    double quotes for each file (those of the template) and no apostrophe. *)
Theorem escapeHtml_safe (s : jsstring) :
  (∀ c, c ∈ escapeHtml s → (c ≠ 60 ∧ c ≠ 62 ∧ c ≠ 34 ∧ c ≠ 39)%N)
  ∧ (∀ i, escapeHtml s !! i = Some 38%N →
          ∃ e, e ∈ entities ∧ startsWith (drop i (escapeHtml s)) e = true)
  ∧ (∀ fileReviews,
       occurrences 60 (reviewHtml basename fileReviews)
       = (6 * length fileReviews)%nat
       ∧ occurrences 62 (reviewHtml basename fileReviews)
         = (6 * length fileReviews)%nat
       ∧ occurrences 34 (reviewHtml basename fileReviews)
         = (6 * length fileReviews)%nat
       ∧ occurrences 39 (reviewHtml basename fileReviews) = 0%nat).
Proof.
  split; [apply escapeHtml_clean|]. split; [apply escapeHtml_ampersand|].
  intros fileReviews. repeat split.
  - apply reviewHtml_occurrences; [done|]. intros e.
    apply reviewSection_occurrences. lia.
  - apply reviewHtml_occurrences; [done|]. intros e.
    apply reviewSection_occurrences. lia.
  - apply reviewHtml_occurrences; [done|]. intros e.
    apply reviewSection_occurrences. lia.
  - rewrite (reviewHtml_occurrences fileReviews 39 0); [lia|done|].
    apply reviewSection_apostrophes.
Qed.

End EscapeClaims.

(** * Claims on the review batch *)

Section BatchFacts.

Import ReviewCodeCommand Batch.

Variable getMessage : jsstring → jsstring.
Variable format : jsstring → jsstring → jsstring.
Variable basename : jsstring → jsstring.
Variable getDiff : jsstring → Outcome (option jsstring).
Variable generateCodeReview : jsstring → jsstring → Outcome (option jsstring).

Local Abbreviation collect := (collectDiff getMessage getDiff).
Local Abbreviation review := (reviewFile format basename generateCodeReview).

Lemma mapSet_fresh (k v : jsstring) (m : StringMap) :
  k ∉ m.*1 → mapSet k v m = m ++ [(k, v)].
Proof.
  induction m as [|[k0 v0] m IH]; [done|]. intros Hk. simpl in *.
  apply not_elem_of_cons in Hk as [Hne Hk].
  rewrite bool_decide_eq_false_2 by done. by rewrite IH.
Qed.

Lemma mapSet_same (k v : jsstring) (m : StringMap) :
  k ∈ m.*1 → (∀ v', (k, v') ∈ m → v' = v) → mapSet k v m = m.
Proof.
  induction m as [|[k0 v0] m IH]; [by intros ?%elem_of_nil|].
  intros Hk Hv. simpl in *. destruct (decide (k0 = k)) as [->|Hne].
  - rewrite bool_decide_eq_true_2 by done.
    by rewrite (Hv v0) by apply list_elem_of_here.
  - rewrite bool_decide_eq_false_2 by done. f_equal.
    apply elem_of_cons in Hk as [Hk|Hk]; [done|].
    apply IH; [done|]. intros v' Hv'. apply Hv. by apply list_elem_of_further.
Qed.

Lemma collectDiff_spec (r : Run) (p : jsstring) :
  diffs (collect r p)
  = match diffOk getDiff p with
    | Some d => mapSet p d (diffs r)
    | None => diffs r
    end
  ∧ fileReviews (collect r p) = fileReviews r
  ∧ ∃ e, events (collect r p) = events r ++ [e] ∧ isProgressOrLog e = true.
Proof.
  unfold collectDiff, diffOk, say.
  destruct (getDiff p) as [[[|c d]|]|m]; simpl; eauto.
Qed.

(** Collecting the diffs keeps, for each selected file whose diff call gave
    a non-empty text, one entry with that text, and raises no notification. *)
Lemma collect_fold (resources : list jsstring) (r : Run) :
  NoDup (diffs r).*1 →
  (∀ p d, (p, d) ∈ diffs r → diffOk getDiff p = Some d) →
  let r' := fold_left collect resources r in
  NoDup (diffs r').*1
  ∧ (∀ p d, (p, d) ∈ diffs r' ↔
            (p, d) ∈ diffs r ∨ (p ∈ resources ∧ diffOk getDiff p = Some d))
  ∧ fileReviews r' = fileReviews r
  ∧ ∃ es, events r' = events r ++ es ∧ forallb isProgressOrLog es = true.
Proof.
  revert r. induction resources as [|p ps IH]; intros r Hnd Hco.
  { simpl. split; [done|]. split; [|split; [done|]].
    - intros q d. split; [by left|]. by intros [?|[?%elem_of_nil _]].
    - exists []. by rewrite app_nil_r. }
  cbn [fold_left]. cbv zeta.
  destruct (collectDiff_spec r p) as (Hd & Hf & e & He & Hq).
  assert (Hstep : NoDup (diffs (collect r p)).*1
                  ∧ (∀ q d, (q, d) ∈ diffs (collect r p) ↔
                       (q, d) ∈ diffs r ∨ (q = p ∧ diffOk getDiff p = Some d))).
  { rewrite Hd. destruct (diffOk getDiff p) as [d|] eqn:Hp.
    - destruct (decide (p ∈ (diffs r).*1)) as [Hin|Hin].
      + rewrite mapSet_same; [|done|].
        * split; [done|]. intros q d'. split; [by left|].
          intros [?|[-> Hd']]; [done|].
          apply list_elem_of_fmap in Hin as ([p0 d0] & -> & Hin).
          simpl in *. pose proof (Hco _ _ Hin) as Hd0. congruence.
        * intros v' Hv'. apply Hco in Hv'. congruence.
      + rewrite mapSet_fresh by done. split.
        * rewrite fmap_app. apply NoDup_app. split; [done|]. split.
          -- intros x Hx [->|[]%elem_of_nil]%elem_of_cons. done.
          -- apply NoDup_singleton.
        * intros q d'. rewrite elem_of_app, list_elem_of_singleton.
          split.
          -- intros [?|[= -> ->]]; [by left|by right].
          -- intros [?|[-> [= ->]]]; [by left|by right].
    - split; [done|]. intros q d'. split; [by left|].
      by intros [?|[_ ?]]. }
  destruct Hstep as [Hnd' Hmem'].
  destruct (IH (collect r p)) as (H1 & H2 & H3 & es & H4 & H5).
  - done.
  - intros q d Hq'. apply Hmem' in Hq' as [Hq'|[-> Hq']]; [by apply Hco|done].
  - split; [done|]. split; [|split].
    + intros q d. rewrite H2, Hmem'. split.
      * intros [[?|[-> ?]]|[? ?]]; auto.
        -- right. split; [apply list_elem_of_here|done].
        -- right. split; [by apply list_elem_of_further|done].
      * intros [?|[[->|?]%elem_of_cons ?]]; auto.
    + by rewrite H3.
    + exists (e :: es). rewrite H4, He, <- app_assoc. split; [done|].
      simpl. by rewrite Hq, H5.
Qed.

Lemma reviewFile_spec (r : Run) (entry : jsstring * jsstring) :
  diffs (review r entry) = diffs r
  ∧ fileReviews (review r entry)
    = match reviewOk generateCodeReview entry with
      | Some (p, c) => mapSet p c (fileReviews r)
      | None => fileReviews r
      end
  ∧ events (review r entry)
    = events r ++ reviewEvents format basename generateCodeReview entry.
Proof.
  destruct entry as [p d]. unfold reviewFile, reviewOk, reviewEvents, say.
  simpl. destruct (generateCodeReview p d) as [[[|c cs]|]|m]; simpl;
    by rewrite <- ?app_assoc.
Qed.

(** Reviewing the entries of [diffs], each under its own key, appends the
    reviews that came back with content, in the order of the entries. *)
Lemma review_fold (entries : StringMap) (r : Run) :
  NoDup entries.*1 →
  (∀ p, p ∈ (fileReviews r).*1 → p ∉ entries.*1) →
  let r' := fold_left review entries r in
  diffs r' = diffs r
  ∧ fileReviews r' = fileReviews r ++ omap (reviewOk generateCodeReview) entries
  ∧ events r'
    = events r
      ++ concat (reviewEvents format basename generateCodeReview <$> entries).
Proof.
  revert r. induction entries as [|[p d] entries IH]; intros r Hnd Hfresh.
  { simpl. by rewrite !app_nil_r. }
  cbn [fold_left]. cbv zeta.
  destruct (reviewFile_spec r (p, d)) as (Hd & Hf & He).
  apply NoDup_cons in Hnd as [Hp Hnd].
  assert (Hnew : p ∉ (fileReviews r).*1).
  { intros Hin. apply (Hfresh _ Hin). apply list_elem_of_here. }
  destruct (IH (review r (p, d))) as (H1 & H2 & H3); [done| |].
  - intros q Hq. rewrite Hf in Hq.
    assert (q = p ∨ q ∈ (fileReviews r).*1) as [->|Hq'].
    { unfold reviewOk in Hq. simpl in Hq.
      destruct (generateCodeReview p d) as [[[|c cs]|]|m]; auto.
      rewrite mapSet_fresh, fmap_app, elem_of_app in Hq by done.
      destruct Hq as [?|?%list_elem_of_singleton]; auto. }
    + done.
    + intros Hin. apply (Hfresh _ Hq'). by apply list_elem_of_further.
  - rewrite H1, H2, H3, Hd, Hf, He. split; [done|]. split.
    + cbn [omap list_omap]. unfold reviewOk at 1 3. simpl.
      destruct (generateCodeReview p d) as [[[|c cs]|]|m]; try done.
      rewrite mapSet_fresh by done. by rewrite <- app_assoc.
    + cbn [fmap list_fmap concat]. by rewrite <- app_assoc.
Qed.

Lemma quiet_filter (es : list UiEvent) :
  forallb isProgressOrLog es = true →
  List.filter isNotifyWarn es = [] ∧ List.filter isNotifyError es = []
  ∧ List.filter isWebviewPanel es = [].
Proof.
  induction es as [|e es IH]; [done|]. simpl.
  intros [He Hes]%andb_true_iff. destruct (IH Hes) as (-> & -> & ->).
  by destruct e.
Qed.

Lemma reviewEvents_filter (entries : StringMap) :
  List.filter isNotifyWarn
    (concat (reviewEvents format basename generateCodeReview <$> entries))
  = (λ e, NotifyWarn (format (lit "review.file.failed") (basename e.1)))
    <$> List.filter (reviewThrows generateCodeReview) entries
  ∧ List.filter isNotifyError
      (concat (reviewEvents format basename generateCodeReview <$> entries)) = []
  ∧ List.filter isWebviewPanel
      (concat (reviewEvents format basename generateCodeReview <$> entries)) = [].
Proof.
  induction entries as [|[p d] entries (IH1 & IH2 & IH3)]; [done|].
  cbn [fmap list_fmap concat List.filter]. rewrite !List.filter_app, IH1, IH2, IH3.
  unfold reviewEvents, reviewThrows. simpl.
  by destruct (generateCodeReview p d).
Qed.

End BatchFacts.

Section BatchClaims.

Import ReviewCodeCommand Batch.

Variable getMessage : jsstring → jsstring.
Variable format : jsstring → jsstring → jsstring.
Variable basename : jsstring → jsstring.
Variable handleConfiguration : bool.
Variable detectSCMProvider : bool.
Variable getDiff : jsstring → Outcome (option jsstring).
Variable generateCodeReview : jsstring → jsstring → Outcome (option jsstring).


End BatchClaims.

Section BatchExamples.

Import ReviewCodeCommand Batch SvnProvider.



End BatchExamples.

(** * Further properties of the diff simplifier *)

Section MoreLineFacts.

Import More.

Lemma trimStart_length (s : jsstring) :
  (length (leadingSpaces s) + length (trimStart s) = length s)%nat.
Proof.
  induction s as [|c r IH]; [done|]. simpl.
  destruct (isSpace c); simpl; lia.
Qed.

Lemma trimStart_shorter (s : jsstring) : (length (trimStart s) <= length s)%nat.
Proof. pose proof (trimStart_length s). lia. Qed.

Lemma trim_shorter (s : jsstring) : (length (trim s) <= length s)%nat.
Proof.
  unfold trim, trimEnd. rewrite length_rev.
  etrans; [apply trimStart_shorter|]. rewrite length_rev. apply trimStart_shorter.
Qed.

Lemma collapse_shorter (b : bool) (s : jsstring) :
  (length (collapseFrom b s) <= length s)%nat.
Proof.
  revert b. induction s as [|c r IH]; intros b; [done|]. simpl.
  pose proof (IH true). pose proof (IH false).
  destruct (isSpace c); [destruct b|]; simpl; lia.
Qed.

Lemma tidyFrom_spaces (b : bool) (s : jsstring) (c : N) :
  tidyFrom b s = true → c ∈ s → isSpace c = true → c = SP.
Proof.
  revert b. induction s as [|x r IH]; intros b H Hc Hsp.
  { by apply elem_of_nil in Hc. }
  simpl in H. apply elem_of_cons in Hc as [->|Hc].
  - rewrite Hsp in H. apply andb_true_iff in H as [H _].
    apply andb_true_iff in H as [_ H]. by apply N.eqb_eq in H.
  - destruct (isSpace x).
    + apply andb_true_iff in H as [_ H]. by apply (IH true).
    + by apply (IH false).
Qed.

Lemma tidy_spaces (s : jsstring) (c : N) :
  tidy s = true → c ∈ s → isSpace c = true → c = SP.
Proof.
  destruct s as [|x r]; [by intros _ ?%elem_of_nil|].
  apply (tidyFrom_spaces true).
Qed.

Lemma indented_spaces (s : jsstring) (c : N) :
  indented s = true → c ∈ s → isSpace c = true → c = SP.
Proof.
  unfold indented. intros H Hc Hsp.
  apply orb_true_iff in H as [H|H]; [by apply (tidy_spaces s)|].
  destruct s as [|c1 r1]; [done|]. apply andb_true_iff in H as [H1 H].
  apply N.eqb_eq in H1 as ->. apply elem_of_cons in Hc as [->|Hc]; [done|].
  apply orb_true_iff in H as [H|H]; [by apply (tidy_spaces r1)|].
  destruct r1 as [|c2 r2]; [done|]. apply andb_true_iff in H as [H2 H].
  apply N.eqb_eq in H2 as ->. apply elem_of_cons in Hc as [->|Hc]; [done|].
  by apply (tidy_spaces r2).
Qed.

Lemma compact_spaces (l : jsstring) (c : N) :
  compact l = true → c ∈ l → isSpace c = true → c = SP.
Proof.
  destruct l as [|x r]; [by intros _ ?%elem_of_nil|]. unfold compact.
  destruct (isDiffMarker x) eqn:Hm; [|apply tidy_spaces].
  intros H [->|Hc]%elem_of_cons Hsp; [|by apply (indented_spaces r)].
  unfold isDiffMarker in Hm.
  destruct (N.eqb_spec x 43) as [->|_]; [done|].
  destruct (N.eqb_spec x 32) as [->|_]; [done|].
  by destruct (N.eqb_spec x 45) as [->|_].
Qed.

Lemma truncateLine_length (l : jsstring) (m : Z) :
  Z.of_nat (length (truncateLine l m)) <= Z.max m 3.
Proof.
  destruct (truncateLine_cases l m) as [[-> [->|H]]|(-> & _ & H)].
  - simpl. lia.
  - lia.
  - rewrite length_app, length_take. change (length ellipsis) with 3%nat. lia.
Qed.

Lemma compressLine_empty (l : jsstring) : compressLine l = [] → l = [].
Proof.
  destruct l as [|c r]; [done|]. rewrite compressLine_cons. cbv zeta.
  rewrite trim_trimStart. destruct (isDiffMarker c) eqn:Hm; [done|].
  destruct (isSpace c) eqn:Hc.
  - destruct (pad_cases (leadingSpaces (c :: r))) as [[E _]|[[_ ->]|[_ ->]]];
      [|done..].
    simpl in E. by rewrite Hc in E.
  - rewrite leadingSpaces_none by done. cbn [length Nat.ltb Nat.leb app].
    unfold trim, collapseSpaces. rewrite trimStart_fix, trimEnd_cons by done.
    cbn [collapseFrom]. by rewrite Hc.
Qed.

Lemma truncateLine_empty (l : jsstring) (m : Z) : truncateLine l m = [] → l = [].
Proof.
  destruct (truncateLine_cases l m) as [[-> _]|(-> & _ & _)]; [done|].
  by intros [_ ?]%app_eq_nil.
Qed.

End MoreLineFacts.

Section MoreSimplifierClaims.

Import More.

(** X1: compressing a line a second time changes nothing. *)
Theorem compressLine_idempotent (line : jsstring) :
  compressLine (compressLine line) = compressLine line.
Proof. apply compressLine_fix, compressLine_compact. Qed.

(** X2: the compressed line is never longer than the line. *)
Theorem compressLine_shorter (line : jsstring) :
  (length (compressLine line) <= length line)%nat.
Proof.
  destruct line as [|c rest]; [done|]. rewrite compressLine_cons. cbv zeta.
  rewrite trim_trimStart.
  set (content := if isDiffMarker c then rest else c :: rest).
  assert (Hline : (length (if isDiffMarker c then [c] else [])
                   + length content = length (c :: rest))%nat).
  { subst content. by destruct (isDiffMarker c). }
  pose proof (trimStart_length content) as Hsplit.
  pose proof (collapse_shorter false (trim content)) as Hcol.
  pose proof (trim_shorter content) as Htrim.
  assert (Hpad : (length (if (0 <? length (leadingSpaces content))%nat
                          then replicate (2 `min` length (leadingSpaces content)) SP
                          else []) <= length (leadingSpaces content))%nat).
  { destruct (0 <? _)%nat; [rewrite length_replicate|simpl]; lia. }
  assert (Hbody : (length (collapseSpaces (trim content))
                   <= length (trimStart content))%nat).
  { rewrite <- trim_trimStart. unfold collapseSpaces.
    etrans; [apply collapse_shorter|apply trim_shorter]. }
  rewrite !length_app. lia.
Qed.

(** X3: in a compressed line every white-space code unit is the plain space:
    tabs, carriage returns, line feeds and the other spaces of the input are
    gone. *)
Theorem compressLine_plain_spaces (line : jsstring) (c : N) :
  c ∈ compressLine line → isSpace c = true → c = SP.
Proof. apply compact_spaces, compressLine_compact. Qed.

Lemma compressLine_plain_spaces_witness :
  N_of_ascii " " = SP.
Proof.
  apply (compressLine_plain_spaces (lit "+a b") (N_of_ascii " ")).
  - vm_compute. apply list_elem_of_further, list_elem_of_further, list_elem_of_here.
  - reflexivity.
Defined.



Lemma pushed_kept (config : DiffConfig) (k : Z) (lines : list jsstring) :
  (kept config <$> List.filter isHeaderOrChange lines)
  `sublist_of` pushed config k lines
  ∧ (length (pushed config k lines) <= length lines)%nat.
Proof.
  revert k. induction lines as [|raw rest IH]; intros k; [done|].
  cbn [pushed List.filter]. unfold isHeaderOrChange, kept.
  destruct (isHeader raw) eqn:Hh; cbn [orb fmap list_fmap].
  { rewrite Hh. destruct (IH k). split; [by apply sublist_skip|simpl; lia]. }
  destruct (isChangeLine (compressLine raw)); cbn [fmap list_fmap].
  { rewrite Hh. destruct (IH 0). split; [by apply sublist_skip|simpl; lia]. }
  destruct (k <? contextLines config).
  { destruct (IH (k + 1)). split; [by apply sublist_cons|simpl; lia]. }
  destruct (k =? contextLines config).
  - destruct (IH (k + 1)). split; [by apply sublist_cons|simpl; lia].
  - destruct (IH k). split; [done|simpl; lia].
Qed.

(** X5: no header line and no changed line is dropped or moved: what the
    loop pushes for them, in their order, is a subsequence of the result; and
    the result never has more lines than the input. *)
Theorem simplified_keeps_changes (config : DiffConfig) (lines : list jsstring) :
  (kept config <$> List.filter isHeaderOrChange lines)
  `sublist_of` simplified (runLoop config lines)
  ∧ (length (simplified (runLoop config lines)) <= length lines)%nat.
Proof. rewrite (proj1 (runLoop_pushed config lines)). apply pushed_kept. Qed.

Lemma pushed_dropped (config : DiffConfig) (k : Z) (ctx rest : list jsstring) :
  forallb isContext ctx = true → contextLines config < k →
  pushed config k (ctx ++ rest) = pushed config k rest.
Proof.
  intros Hctx Hk. induction ctx as [|raw ctx IH]; [done|].
  simpl in Hctx. apply andb_true_iff in Hctx as [Hraw Hctx].
  unfold isContext in Hraw. apply andb_true_iff in Hraw as [Hh Hc].
  apply negb_true_iff in Hh, Hc. cbn [app pushed]. unfold isHeader.
  rewrite Hh, Hc.
  destruct (Z.ltb_spec k (contextLines config)); [lia|].
  destruct (Z.eqb_spec k (contextLines config)); [lia|]. by apply IH.
Qed.

(** X6: of a run of more than [contextLines] context lines that starts the
    diff or comes after a changed line (header lines apart), the first
    [contextLines] are kept, one marker stands for all the others, and the
    lines after the run are met with the counter at [contextLines + 1]. *)
Theorem simplified_long_run (config : DiffConfig) (pre run post : list jsstring)
  (Hn : 0 <= contextLines config)
  (Hfresh : freshStart pre = true)
  (Hrun : forallb isContext run = true)
  (Hlen : contextLines config < Z.of_nat (length run)) :
  simplified (runLoop config (pre ++ run ++ post))
  = simplified (runLoop config pre)
    ++ (literal config <$> take (Z.to_nat (contextLines config)) run)
    ++ [ellipsis]
    ++ pushed config (contextLines config + 1) post.
Proof.
  rewrite !(proj1 (runLoop_pushed config _)), pushed_app. f_equal.
  rewrite (freshStart_counter config pre false 0) by done.
  set (n := Z.to_nat (contextLines config)).
  rewrite <- (take_drop n run) at 1. rewrite <- app_assoc.
  assert (Hsplit : forallb isContext (take n run) = true
                   ∧ forallb isContext (drop n run) = true).
  { rewrite <- (take_drop n run), forallb_app in Hrun.
    by apply andb_true_iff in Hrun. }
  destruct Hsplit as [Htake Hdrop].
  assert (Hn' : length (take n run) = n) by (rewrite length_take; lia).
  rewrite pushed_context; [|done|lia]. f_equal.
  assert (Hd : (0 < length (drop n run))%nat) by (rewrite length_drop; lia).
  destruct (drop n run) as [|next others]; [simpl in Hd; lia|].
  simpl in Hdrop. apply andb_true_iff in Hdrop as [Hnext Hothers].
  cbn [app]. rewrite pushed_marker; [|done|lia]. cbn [app]. f_equal.
  replace (0 + Z.of_nat (length (take n run)) + 1) with (contextLines config + 1)
    by lia.
  apply pushed_dropped; [done|lia].
Qed.

Lemma simplified_long_run_witness :
  simplified (runLoop {| enabled := true; contextLines := 1; maxLineLength := 120 |}
                ([lit "+x"] ++ [lit " a"; lit " b"; lit " c"; lit " d"] ++ [lit "-y"]))
  = simplified (runLoop {| enabled := true; contextLines := 1; maxLineLength := 120 |}
                  [lit "+x"])
    ++ (literal {| enabled := true; contextLines := 1; maxLineLength := 120 |}
          <$> take 1 [lit " a"; lit " b"; lit " c"; lit " d"])
    ++ [ellipsis]
    ++ pushed {| enabled := true; contextLines := 1; maxLineLength := 120 |}
         2 [lit "-y"].
Proof.
  apply (simplified_long_run
           {| enabled := true; contextLines := 1; maxLineLength := 120 |}
           [lit "+x"] [lit " a"; lit " b"; lit " c"; lit " d"] [lit "-y"]);
    try reflexivity.
  simpl. lia.
Defined.

Lemma pushed_negative (config : DiffConfig) (k : Z) (lines : list jsstring) :
  contextLines config < 0 → 0 <= k →
  pushed config k lines = (kept config <$> List.filter isHeaderOrChange lines).
Proof.
  intros Hn. revert k. induction lines as [|raw rest IH]; intros k Hk; [done|].
  cbn [pushed List.filter]. unfold isHeaderOrChange, kept.
  destruct (isHeader raw) eqn:Hh; cbn [orb fmap list_fmap].
  { rewrite Hh. f_equal. by apply IH. }
  destruct (isChangeLine (compressLine raw)); cbn [fmap list_fmap].
  { rewrite Hh. f_equal. by apply IH. }
  destruct (Z.ltb_spec k (contextLines config)); [lia|].
  destruct (Z.eqb_spec k (contextLines config)); [lia|]. by apply IH.
Qed.

(** X7: with a negative [contextLines] every context line is dropped and no
    marker is written: the result holds the header and changed lines only. *)
Theorem simplified_negative_context (config : DiffConfig) (lines : list jsstring)
  (Hn : contextLines config < 0) :
  simplified (runLoop config lines)
  = (kept config <$> List.filter isHeaderOrChange lines).
Proof.
  rewrite (proj1 (runLoop_pushed config lines)). by apply pushed_negative.
Qed.

Lemma simplified_negative_context_witness :
  simplified (runLoop {| enabled := true; contextLines := -1; maxLineLength := 120 |}
                [lit " a"; lit "+x"; lit " b"; lit "Index: f"])
  = (kept {| enabled := true; contextLines := -1; maxLineLength := 120 |}
       <$> List.filter isHeaderOrChange [lit " a"; lit "+x"; lit " b"; lit "Index: f"]).
Proof.
  apply (simplified_negative_context
           {| enabled := true; contextLines := -1; maxLineLength := 120 |}).
  simpl. lia.
Defined.

(** X8: the configuration is read once: a later [simplify] works under the
    configuration of the first call whatever the settings have become, and
    only after [clearConfigCache] does a call read the settings again. *)
Theorem simplify_config_cached (live live' : DiffConfig) (st : Static)
  (first second : jsstring) :
  (simplify live' (simplify live st first).2 second).1
  = simplifyWith (getConfig live st).1 second
  ∧ (simplify live' (clearConfigCache (simplify live st first).2) second).1
    = simplifyWith live' second.
Proof.
  unfold simplify, getConfig, clearConfigCache. by destruct st as [[c|]].
Qed.

End MoreSimplifierClaims.

(** * Further properties of [SvnProvider] *)

Section MoreGetDiff.

Import SvnProvider.

Variable getMessage : jsstring → jsstring.
Variable format : jsstring → jsstring → jsstring.
Variable exec : jsstring → ExecResult.
Variable enableSimplification : option bool.
Variable getDiffConfig : DiffConfig.

Local Abbreviation getDiff' :=
  (getDiff getMessage format exec enableSimplification getDiffConfig).

(** X9: for a non-empty list of files the command is [svn diff] followed by
    the names, each put between double quotes as it is, with single spaces
    between them (the fallback for an empty joined string is never taken);
    without files it is [svn diff] alone. *)
Theorem command_quotes (file : jsstring) (files : list jsstring) :
  command (Some (file :: files))
  = lit "svn diff "
    ++ joinWith (lit " ") ((λ f, QUOTE :: f ++ [QUOTE]) <$> file :: files)
  ∧ command (Some []) = lit "svn diff"
  ∧ command None = lit "svn diff".
Proof.
  split; [|done]. unfold command.
  destruct (length _ =? 0)%nat eqn:E; [|done].
  apply Nat.eqb_eq in E. simpl in E. destruct files; simpl in E; lia.
Qed.

(** X10: when [getDiff] throws, whatever the cause, the console line and the
    [git.diff.failed] error message made from the error's text are added,
    in this order, and the simplifier is as it was; when it returns, the only
    message shown is the simplification warning, exactly when the setting is
    on. *)
Theorem getDiff_messages (files : option (list jsstring)) (h : Host) :
  match getDiff' files h with
  | (Throw m, h') =>
      shown h' = shown h
                 ++ [ConsoleError (lit "SVN diff failed:") m;
                     ShowErrorMessage (format (lit "git.diff.failed") m)]
      ∧ simplifier h' = simplifier h
  | (Return _, h') =>
      shown h' = shown h
                 ++ match enableSimplification with
                    | Some true =>
                        [ShowWarningMessage
                           (getMessage (lit "diff.simplification.warning"))]
                    | _ => []
                    end
  end.
Proof.
  unfold getDiff, getDiffTry, emit.
  destruct (exec (command files)) as [out|m].
  2: { simpl. by rewrite <- app_assoc. }
  destruct (truthy (stderr out)).
  { simpl. by rewrite <- app_assoc. }
  destruct (negb (truthy (trim (stdout out)))).
  { simpl. by rewrite <- app_assoc. }
  destruct enableSimplification as [[|]|]; simpl; rewrite ?app_nil_r; try done.
  by destruct (simplify _ _ _).
Qed.

Lemma join_two (a b : jsstring) (rest : list jsstring) : join (a :: b :: rest) ≠ [].
Proof. unfold join. simpl. by destruct a. Qed.

Lemma join_head (a : jsstring) (rest : list jsstring) : a ≠ [] → join (a :: rest) ≠ [].
Proof. unfold join. destruct rest; simpl; [done|]. by destruct a. Qed.

Lemma split_head_empty (s : jsstring) (rest : list jsstring) :
  split s = [] :: rest → s = [] ∨ rest ≠ [].
Proof.
  destruct s as [|c r]; [by left|]. simpl.
  destruct (c =? LF)%N.
  - intros [= <-]. right. apply split_nonempty.
  - by destruct (split r).
Qed.

Lemma literal_nonempty (config : DiffConfig) (raw : jsstring) :
  raw ≠ [] → literal config raw ≠ [].
Proof.
  intros Hraw H. apply truncateLine_empty, compressLine_empty in H. done.
Qed.

(** With [contextLines] not negative, something is pushed for the first line
    and, when that line is empty, for the second one too. *)
Lemma pushed_not_blank (config : DiffConfig) (s : jsstring) :
  0 <= contextLines config → s ≠ [] →
  join (pushed config 0 (split s)) ≠ [].
Proof.
  intros Hn Hs. destruct (split s) as [|l1 rest] eqn:E.
  { by apply split_nonempty in E. }
  destruct l1 as [|c l1].
  - apply split_head_empty in E as [->|Hrest]; [done|].
    destruct rest as [|l2 rest]; [done|].
    assert (H2 : ∀ k, k <= contextLines config →
                      ∃ o os, pushed config k (l2 :: rest) = o :: os).
    { intros k Hk. cbn [pushed]. destruct (isHeader l2); [eauto|].
      destruct (isChangeLine (compressLine l2)); [eauto|].
      destruct (Z.ltb_spec k (contextLines config)); [eauto|].
      destruct (Z.eqb_spec k (contextLines config)); [eauto|lia]. }
    change ([] :: l2 :: rest) with ([[]] ++ l2 :: rest).
    rewrite pushed_app, counterAfter_cons, counterAfter_nil.
    change (pushed config 0 [[]])
      with (if 0 <? contextLines config then [literal config []]
            else if 0 =? contextLines config then [ellipsis] else []).
    change (isHeader []) with false.
    change (isChangeLine (compressLine [])) with false. cbv iota.
    destruct (Z.ltb_spec 0 (contextLines config)).
    + destruct (H2 (0 + 1)) as (o & os & ->); [lia|]. apply join_two.
    + destruct (Z.eqb_spec 0 (contextLines config)); [|lia].
      apply join_head. done.
  - cbn [pushed]. destruct (isHeader (c :: l1)) eqn:Hh.
    { apply join_head. intros H. by apply compressLine_empty in H. }
    destruct (isChangeLine (compressLine (c :: l1))).
    { by apply join_head, literal_nonempty. }
    destruct (Z.ltb_spec 0 (contextLines config)).
    { by apply join_head, literal_nonempty. }
    destruct (Z.eqb_spec 0 (contextLines config)); [|lia].
    by apply join_head.
Qed.

(** X11: a diff that [getDiff] returns is never the empty string, provided
    the simplifier's [contextLines] is not negative (or simplification is
    off): the check for an empty output cannot be undone by the
    simplifier. *)
Theorem getDiff_never_empty (files : option (list jsstring)) (h : Host)
  (diff : jsstring)
  (Hsafe : enableSimplification ≠ Some true
           ∨ enabled (getConfig getDiffConfig (simplifier h)).1 = false
           ∨ 0 <= contextLines (getConfig getDiffConfig (simplifier h)).1)
  (Hreturn : (getDiff' files h).1 = Return diff) :
  diff ≠ [].
Proof.
  revert Hreturn. unfold getDiff, getDiffTry.
  destruct (exec (command files)) as [out|m]; [|done].
  destruct (truthy (stderr out)); [done|].
  destruct (trim (stdout out)) as [|t ts] eqn:Ht; [done|]. cbn [truthy negb].
  assert (Hout : stdout out ≠ []) by (by intros E; rewrite E in Ht).
  assert (Hraw : ∀ r, Return (stdout out) = Return r → r ≠ [])
    by (by intros r [= <-]).
  destruct enableSimplification as [[|]|] eqn:Hflag; simpl; [|by apply Hraw..].
  unfold simplify, simplifyWith in *.
  destruct (getConfig getDiffConfig (simplifier h)) as [config st'].
  simpl in *. intros [= <-].
  destruct Hsafe as [?|[->|Hn]]; [done|done|].
  destruct (enabled config); [|done]. cbn [negb].
  rewrite (proj1 (runLoop_pushed config _)). by apply pushed_not_blank.
Qed.

End MoreGetDiff.

Section MoreGetDiffWitness.

Import SvnProvider.

Lemma getDiff_never_empty_witness : lit "+x" ≠ [].
Proof.
  apply (getDiff_never_empty (λ key, key) (λ key arg, key ++ arg)
           (λ _, Resolved {| stdout := lit "+x"; stderr := [] |}) (Some true)
           {| enabled := true; contextLines := 3; maxLineLength := 120 |}
           None {| simplifier := {| configCache := None |}; shown := [] |}).
  - right. right. simpl. lia.
  - reflexivity.
Defined.

End MoreGetDiffWitness.

Section MoreRepositories.

Import SvnRepositories.

Variable getMessage : jsstring → jsstring.
Variable formatError : jsstring → jsstring → jsstring.
Variable commitFiles : list jsstring → jsstring → Outcome unit.
Variable typeErrorMessage : jsstring.

Local Abbreviation commit' := (commit getMessage formatError commitFiles).
Local Abbreviation isAvailable' := (isAvailable typeErrorMessage).


Lemma firstRepository_written (message : jsstring) (w : World) (p : Provider)
  (r : Repository) :
  firstRepository w p = Some r →
  firstRepository (setCommitInput getMessage message w p).2 p
  = Some {| inputBox := message |}.
Proof.
  unfold setCommitInput. intros H. rewrite H. cbn [snd].
  unfold firstRepository, repositoriesOf in *.
  destruct (api p); simpl in *.
  - destruct (extension w) as [e|]; [|done]. simpl in *.
    destruct (extRepositories e) as [[|? ?]|]; done.
  - destruct (apiRepositories w) as [[|? ?]|]; done.
Qed.

(** X13: when a repository is found, [getCommitInput] after
    [setCommitInput(message)] returns [message]; when none is found, both
    throw [git.repository.not.found] and nothing is written. *)
Theorem commit_input_round_trip (message : jsstring) (w : World) (p : Provider) :
  match firstRepository w p with
  | Some _ =>
      (setCommitInput getMessage message w p).1 = Return tt
      ∧ getCommitInput getMessage (setCommitInput getMessage message w p).2 p
        = Return message
  | None =>
      setCommitInput getMessage message w p
      = (Throw (getMessage (lit "git.repository.not.found")), w)
      ∧ getCommitInput getMessage w p
        = Throw (getMessage (lit "git.repository.not.found"))
  end.
Proof.
  destruct (firstRepository w p) as [r|] eqn:H.
  - split; [unfold setCommitInput; by rewrite H|].
    unfold getCommitInput. by rewrite (firstRepository_written message w p r).
  - unfold setCommitInput, getCommitInput. by rewrite H.
Qed.

(** X14: [isAvailable] never throws; it answers [true] exactly when the
    extension has a [getAPI] that returns and the API has at least one
    repository, and from then on the provider works on the first repository
    of the API; when it answers [false] the provider is as it was. *)
Theorem isAvailable_outcomes (w : World) (p : Provider) :
  let '(available, w', p') := isAvailable' w p in
  (available = true ↔
     (∃ u, extension w ≫= getAPI = Some (Return u))
     ∧ ∃ r rs, apiRepositories w = Some (r :: rs))
  ∧ (available = true →
       firstRepository w' p' = apiRepositories w ≫= head
       ∧ is_Some (firstRepository w' p') ∧ w' = w)
  ∧ (available = false → p' = p).
Proof.
  unfold isAvailable.
  destruct (extension w ≫= getAPI) as [[u|m]|] eqn:Hapi.
  - destruct (apiRepositories w) as [[|r rs]|] eqn:Hrs; cbn [length Nat.ltb Nat.leb].
    + split; [split; [done|by intros (_ & ? & ? & ?)]|by split].
    + split; [split; [eauto 10|done]|]. split; [|done]. intros _.
      unfold firstRepository, repositoriesOf. simpl. rewrite Hrs. by eauto.
    + split; [split; [done|by intros (_ & ? & ? & ?)]|by split].
  - split; [split; [done|by intros ((? & ?) & _)]|by split].
  - split; [split; [done|by intros ((? & ?) & _)]|by split].
Qed.

End MoreRepositories.

(** * Further properties of the configuration manager *)

Section MoreCache.

Import ConfigurationManager More.

Variable V : Type.
Variable ConfigKey : Type.
Variable ConfigKeys : ConfigKey → jsstring.
Variable EXTENSION_NAME : jsstring.
Variable CONFIG_SCHEMA : list (jsstring * ConfigNode).

Local Abbreviation configKey key :=
  (replaceFirst (lit "dish-ai-commit.") [] (ConfigKeys key)).
Local Abbreviation changedKeys affects :=
  (getChangedConfigurationKeys EXTENSION_NAME CONFIG_SCHEMA affects).
Local Abbreviation handle affects fresh m :=
  (onDidChangeConfiguration V EXTENSION_NAME CONFIG_SCHEMA affects fresh m).

(** X15: a change event that reports at least one key of the schema installs
    the new settings handle, so that [getConfig] with the cache off answers
    from it for every key; an event that reports none leaves the manager,
    its handle included, as it was and reinitializes nothing. *)
Theorem event_installs_handle (affects : jsstring → bool)
  (fresh : jsstring → option V) (m : Manager V) :
  match changedKeys affects with
  | [] => handle affects fresh m = (m, [])
  | _ :: _ =>
      ∀ key, (getConfig V ConfigKey ConfigKeys key false (handle affects fresh m).1).1
             = fresh (configKey key)
  end.
Proof.
  unfold onDidChangeConfiguration. by destruct (changedKeys affects).
Qed.

Lemma updateConfigCache_written (keys : list jsstring) (m : Manager V)
  (k : jsstring) (v : V) :
  configuration V m k = Some v →
  k ∈ keys ∨ configCache V m !! k = Some (Some v) →
  configCache V (updateConfigCache V keys m) !! k = Some (Some v).
Proof.
  unfold updateConfigCache. revert m.
  induction keys as [|key keys IH]; intros m Hv Hk.
  { by destruct Hk as [?%elem_of_nil|?]. }
  cbn [fold_left].
  change (getUpdatedValue V m key) with (configuration V m key).
  destruct (decide (key = k)) as [->|Hne].
  - rewrite Hv. apply IH; [done|]. right. simpl. apply lookup_insert_eq.
  - assert (Hk' : k ∈ keys ∨ configCache V m !! k = Some (Some v)).
    { destruct Hk as [[?|?]%elem_of_cons|?]; [done|by left|by right]. }
    destruct (configuration V m key) as [value|]; [|by apply IH].
    apply IH; [done|]. destruct Hk' as [?|?]; [by left|right].
    simpl. by rewrite lookup_insert_ne.
Qed.

(** X16: the cache entry of a reported key is refreshed from the settings
    handle held when the event arrives, not from the one installed after it:
    [getConfig] with the cache on then returns that handle's value, whatever
    the new handle holds. *)
Theorem event_caches_held_value (affects : jsstring → bool)
  (fresh : jsstring → option V) (m : Manager V) (key : ConfigKey) (v : V)
  (Hchanged : configKey key ∈ changedKeys affects)
  (Hheld : configuration V m (configKey key) = Some v) :
  configCache V (handle affects fresh m).1 !! configKey key = Some (Some v)
  ∧ (getConfig V ConfigKey ConfigKeys key true (handle affects fresh m).1).1
    = Some v.
Proof.
  assert (H : configCache V (handle affects fresh m).1 !! configKey key
              = Some (Some v)).
  { unfold onDidChangeConfiguration.
    destruct (changedKeys affects) as [|k0 ks] eqn:E.
    { by apply elem_of_nil in Hchanged. }
    cbn [length Nat.ltb Nat.leb fst configCache].
    apply updateConfigCache_written; [done|by left]. }
  split; [done|]. by apply getConfig_cached.
Qed.

(** X17: the first [getConfig] with the cache on stores what it read, an
    [undefined] too, and every later one returns that value, whatever the
    settings handle has become in between. *)
Theorem getConfig_sticky (key : ConfigKey) (m : Manager V)
  (later : jsstring → option V) :
  let m1 := (getConfig V ConfigKey ConfigKeys key true m).2 in
  has V (configKey key) (configCache V m1) = true
  ∧ (configCache V m !! configKey key = None →
     (getConfig V ConfigKey ConfigKeys key true m).1
     = configuration V m (configKey key))
  ∧ (getConfig V ConfigKey ConfigKeys key true
       {| configuration := later; configCache := configCache V m1 |}).1
    = (getConfig V ConfigKey ConfigKeys key true m).1.
Proof.
  intros m1. subst m1.
  assert (Hhit : ∀ m0 v, configCache V m0 !! configKey key = Some v →
                         getConfig V ConfigKey ConfigKeys key true m0 = (v, m0)).
  { intros m0 v E. unfold getConfig, has, get. cbn [negb].
    rewrite bool_decide_eq_true_2 by (by rewrite E). cbn [negb]. by rewrite E. }
  destruct (configCache V m !! configKey key) as [v|] eqn:E.
  - rewrite !(Hhit m v E). cbn [fst snd]. rewrite (Hhit _ v) by done.
    split; [|done]. unfold has. apply bool_decide_eq_true_2. by rewrite E.
  - assert (Hmiss : getConfig V ConfigKey ConfigKeys key true m
                    = (configuration V m (configKey key),
                       {| configuration := configuration V m;
                          configCache := <[configKey key :=
                                           configuration V m (configKey key)]>
                                           (configCache V m) |})).
    { unfold getConfig, has, get. cbn [negb].
      rewrite bool_decide_eq_false_2 by (rewrite E; by intros [? ?]).
      cbn [negb configCache]. by rewrite lookup_insert_eq. }
    rewrite !Hmiss. cbn [fst snd configCache].
    rewrite (Hhit _ (configuration V m (configKey key)))
      by apply lookup_insert_eq.
    split; [|done]. unfold has. apply bool_decide_eq_true_2.
    by rewrite lookup_insert_eq.
Qed.

Lemma traverseNode_filter (affects : jsstring → bool) (node : ConfigNode)
  (path : jsstring) :
  traverseNode EXTENSION_NAME affects node path
  = List.filter (λ k, affects (EXTENSION_NAME ++ lit "." ++ k))
      (traverseNode EXTENSION_NAME (λ _, true) node path).
Proof.
  revert node path. fix IH 1. intros [|entries] path.
  - simpl. by destruct (affects _).
  - cbn [traverseNode]. induction entries as [|[key v] rest IHrest]; [done|].
    rewrite List.filter_app, <- IHrest. f_equal. apply IH.
Qed.


Lemma startsWith_firstSegment (key p q : jsstring) :
  (46%N ∉ p) → startsWith key (p ++ 46%N :: q) = true → firstSegment key = p.
Proof.
  revert key. induction p as [|a p IH]; intros key Hp H.
  - destruct key as [|c key]; [done|]. cbn [app startsWith firstSegment] in *.
    apply andb_true_iff in H as [H _]. apply N.eqb_eq in H as <-.
    by rewrite N.eqb_refl.
  - destruct key as [|c key]; [done|]. cbn [app startsWith firstSegment] in *.
    apply andb_true_iff in H as [Ha H]. apply N.eqb_eq in Ha as <-.
    apply not_elem_of_cons in Hp as [Hne Hp].
    destruct (N.eqb_spec a 46); [done|]. f_equal. by apply IH.
Qed.

(** X19: [handleConfigurationChange] reinitializes a provider exactly when
    some changed key starts with its prefix, each provider once and in the
    fixed order; the first test on the segment [providers] excludes
    nothing. *)
Theorem reinitialized_providers (keys : list jsstring) :
  handleConfigurationChange keys
  = (λ e, e.1)
    <$> List.filter (λ e, existsb (λ key, startsWith key e.2) keys)
          providerPrefixes.
Proof.
  unfold handleConfigurationChange, providerPrefixes.
  destruct (existsb (λ key, bool_decide (firstSegment key = lit "providers")) keys)
    eqn:Hfirst.
  { cbn [List.filter snd fst].
    destruct (existsb (λ key, startsWith key (lit "providers.openai")) keys);
    destruct (existsb (λ key, startsWith key (lit "providers.ollama")) keys);
    destruct (existsb (λ key, startsWith key (lit "providers.zhipuai")) keys);
    destruct (existsb (λ key, startsWith key (lit "providers.dashscope")) keys);
    destruct (existsb (λ key, startsWith key (lit "providers.doubao")) keys);
    reflexivity. }
  assert (Hnone : ∀ q, existsb (λ key, startsWith key
                                  (lit "providers" ++ 46%N :: q)) keys = false).
  { intros q. apply not_true_is_false. intros [key [Hin Hs]]%existsb_exists.
    apply startsWith_firstSegment in Hs.
    - assert (existsb (λ key, bool_decide (firstSegment key = lit "providers")) keys
              = true); [|congruence].
      apply existsb_exists. exists key. split; [done|]. by apply bool_decide_eq_true_2.
    - vm_compute. intros H.
      repeat (apply elem_of_cons in H as [H|H]; [discriminate|]).
      by apply elem_of_nil in H. }
  cbn [List.filter snd fst].
  change (lit "providers.openai") with (lit "providers" ++ 46%N :: lit "openai").
  change (lit "providers.ollama") with (lit "providers" ++ 46%N :: lit "ollama").
  change (lit "providers.zhipuai") with (lit "providers" ++ 46%N :: lit "zhipuai").
  change (lit "providers.dashscope") with (lit "providers" ++ 46%N :: lit "dashscope").
  change (lit "providers.doubao") with (lit "providers" ++ 46%N :: lit "doubao").
  by rewrite !Hnone.
Qed.

End MoreCache.

Section MoreCacheWitness.

Import ConfigurationManager.

Lemma event_caches_held_value_witness :
  let schema := [(lit "model", ConfigValue)] in
  let m := {| configuration := λ _, Some 7; configCache := ∅ |} in
  let m' := (onDidChangeConfiguration Z (lit "dish-ai-commit") schema
               (λ _, true) (λ _, Some 8) m).1 in
  configCache Z m' !! lit "model" = Some (Some 7)
  ∧ (getConfig Z KnownKey KnownKeys MODEL true m').1 = Some 7.
Proof.
  apply (event_caches_held_value Z KnownKey KnownKeys (lit "dish-ai-commit")
           [(lit "model", ConfigValue)] (λ _, true) (λ _, Some 8)
           {| configuration := λ _, Some 7; configCache := ∅ |} MODEL 7).
  - vm_compute. apply list_elem_of_here.
  - reflexivity.
Defined.

End MoreCacheWitness.

(** * Further properties of [OpenAIProvider] *)

Section MoreRetry.

Import OpenAIProvider Retry.

Variable getMessage : jsstring → jsstring.
Variable format : jsstring → option jsstring → jsstring.
Variable generateCommitMessageSystemPrompt :
  jsstring → bool → bool → jsstring → jsstring.
Variable defaultLanguage : jsstring.
Variable vendor : nat → ChatRequest → VendorResult.
Variable params : AIRequestParams.

Local Abbreviation iteration' :=
  (iteration getMessage format generateCommitMessageSystemPrompt
     defaultLanguage vendor params).
Local Abbreviation loop' fuel :=
  (loop getMessage format generateCommitMessageSystemPrompt
     defaultLanguage vendor fuel params).


Lemma iteration_cases (st : Loop) :
  (∃ st', iteration' st = inl st'
          ∧ retries st < maxRetries ∧ retries st' = retries st + 1
          ∧ notified st' = notified st
          ∧ length (sent st') = S (length (sent st)))
  ∨ (∃ done, iteration' st = inr done
             ∧ retries done.2 = retries st
             ∧ length (sent done.2) = S (length (sent st))
             ∧ match done.1 with
               | Throw m => notified done.2 = notified st ++ [NotifyError m]
               | Return _ =>
                   notified done.2
                   = notified st
                     ++ (if Z.of_nat (length (diff params)) >? maxInputLength done.2
                         then [NotifyWarn (getMessage (lit "openai.input.truncated"))]
                         else [])
               end).
Proof.
  unfold iteration. destruct (vendor _ _) as [c|message].
  - right. eexists. split; [reflexivity|].
    destruct (_ >? _) eqn:E; cbn [fst snd retries sent notified maxInputLength];
      rewrite ?E, ?length_app, ?app_nil_r; simpl; repeat split; lia.
  - destruct (retries st <? maxRetries) eqn:Hr; cbn [andb].
    + destruct (isContextLengthError message).
      * left. eexists. split; [reflexivity|]. apply Z.ltb_lt in Hr.
        cbn [retries notified sent]. rewrite length_app. simpl.
        repeat split; lia.
      * right. eexists. split; [reflexivity|]. cbn [fst snd retries sent notified].
        rewrite length_app. simpl. repeat split; lia.
    + right. eexists. split; [reflexivity|]. cbn [fst snd retries sent notified].
      rewrite length_app. simpl. repeat split; lia.
Qed.

Lemma loop_ends (fuel : nat) (st : Loop) :
  0 <= retries st <= maxRetries →
  (Z.to_nat (maxRetries + 1 - retries st) <= fuel)%nat →
  ∃ final, loop' fuel st = Some final
           ∧ retries st <= retries final.2 <= maxRetries
           ∧ length (sent final.2)
             = (length (sent st) + Z.to_nat (retries final.2 - retries st) + 1)%nat
           ∧ match final.1 with
             | Throw m => notified final.2 = notified st ++ [NotifyError m]
             | Return _ =>
                 notified final.2
                 = notified st
                   ++ (if Z.of_nat (length (diff params)) >? maxInputLength final.2
                       then [NotifyWarn (getMessage (lit "openai.input.truncated"))]
                       else [])
             end.
Proof.
  revert st. induction fuel as [|fuel IH]; intros st Hr Hfuel.
  { unfold maxRetries in *. lia. }
  cbn [loop].
  destruct (iteration_cases st) as [(st' & -> & H1 & H2 & H3 & H4)
                                   |(done & -> & H1 & H2 & H3)].
  - destruct (IH st') as (final & -> & F1 & F2 & F3); [lia|lia|].
    exists final. split; [done|]. split; [lia|]. split; [lia|].
    by rewrite <- H3.
  - exists done. split; [done|]. split; [lia|]. split; [|done].
    rewrite H2, H1. replace (retries st - retries st) with 0 by lia. simpl. lia.
Qed.

(** X20: a call of [generateResponse] raises one notification at most: the
    error it throws, with the same text, or, when it returns, the truncation
    warning exactly when the diff is longer than the budget of the attempt
    that succeeded; and it makes one vendor call more than it made
    retries. *)
Theorem generateResponse_notifications :
  ∃ final,
    generateResponse getMessage format generateCommitMessageSystemPrompt
      defaultLanguage vendor 3 params = Some final
    ∧ 0 <= retries final.2 <= 2
    ∧ length (sent final.2) = S (Z.to_nat (retries final.2))
    ∧ match final.1 with
      | Throw m => notified final.2 = [NotifyError m]
      | Return _ =>
          notified final.2
          = if Z.of_nat (length (diff params)) >? maxInputLength final.2
            then [NotifyWarn (getMessage (lit "openai.input.truncated"))]
            else []
      end.
Proof.
  unfold generateResponse.
  destruct (loop_ends 3 (initial params)) as (final & -> & F1 & F2 & F3).
  - unfold initial, maxRetries. cbn [retries]. lia.
  - unfold initial, maxRetries. cbn [retries]. lia.
  - exists final. split; [done|].
    unfold initial, maxRetries in F1, F2, F3. cbn [retries sent notified] in F1, F2, F3.
    split; [lia|]. split; [|done]. rewrite F2, Z.sub_0_r. simpl. lia.
Qed.

(** X21: what a retry sends is a prefix of what the attempt before it sent,
    and a positive budget gets strictly smaller with each retry without
    becoming negative. *)
Theorem retry_sends_prefix (j : nat) :
  userContent (request generateCommitMessageSystemPrompt defaultLanguage
                 params (S j))
  `prefix_of` userContent (request generateCommitMessageSystemPrompt
                             defaultLanguage params j)
  ∧ (0 < budget params j → 0 <= budget params (S j) < budget params j).
Proof.
  assert (Hs : budget params (S j) = 4 * budget params j / 5).
  { unfold budget. simpl. apply shrink_div. }
  assert (Hle : (Z.to_nat (budget params (S j)) <= Z.to_nat (budget params j))%nat).
  { rewrite Hs. destruct (Z.le_gt_cases 0 (budget params j)).
    - apply Z2Nat.inj_le; [apply Z.div_pos; lia|done|].
      apply Z.div_le_upper_bound; lia.
    - assert (4 * budget params j / 5 < 0) by (apply Z.div_lt_upper_bound; lia).
      lia. }
  split.
  - unfold request, buildRequest, substring0. cbn [userContent].
    exists (drop (Z.to_nat (budget params (S j)))
              (take (Z.to_nat (budget params j)) (diff params))).
    rewrite <- (take_drop (Z.to_nat (budget params (S j)))
                  (take (Z.to_nat (budget params j)) (diff params))) at 1.
    f_equal. rewrite take_take. f_equal. lia.
  - intros Hpos. rewrite Hs. split; [apply Z.div_pos; lia|].
    apply Z.div_lt_upper_bound; lia.
Qed.

End MoreRetry.

Section MoreClient.

Import ConfigurationManager OpenAIClient.

(** X22: [isAvailable] of the OpenAI provider is [true] exactly when the
    setting [openai.apiKey], read from the settings handle itself, is a
    non-empty string; what the manager has cached plays no part.  The client
    gets an [api-version] exactly when [openai.baseUrl] and [model] are both
    non-empty, and it is the value of [model]. *)
Theorem openai_available (m : Manager jsstring) :
  isAvailable m = nonEmpty (configuration jsstring m (lit "openai.apiKey"))
  ∧ defaultQuery (getOpenAIConfig m)
    = (if nonEmpty (configuration jsstring m (lit "openai.baseUrl"))
          && nonEmpty (configuration jsstring m (lit "model"))
       then configuration jsstring m (lit "model") else None)
  ∧ ∀ cache,
      isAvailable {| configuration := configuration jsstring m; configCache := cache |}
      = isAvailable m.
Proof.
  assert (H : ∀ m0 : Manager jsstring,
    isAvailable m0 = nonEmpty (configuration jsstring m0 (lit "openai.apiKey"))).
  { intros m0. unfold isAvailable, getOpenAIConfig, getConfig. cbn [negb fst].
    change (replaceFirst _ _ (KnownKeys OPENAI_API_KEY)) with (lit "openai.apiKey").
    by repeat destruct (nonEmpty (configuration jsstring m0 (replaceFirst _ _ _))). }
  split; [apply H|]. split; [|intros cache; by rewrite !H].
  unfold getOpenAIConfig, getConfig. cbn [negb fst].
  change (replaceFirst _ _ (KnownKeys OPENAI_BASE_URL)) with (lit "openai.baseUrl").
  change (replaceFirst _ _ (KnownKeys MODEL)) with (lit "model").
  destruct (nonEmpty (configuration jsstring m (lit "openai.baseUrl"))); [|done].
  by destruct (nonEmpty (configuration jsstring m (lit "model"))).
Qed.

(** X23: the catalog [getModels] returns has no two models with the same
    id, exactly one default model, [gpt-4o], and a positive input limit for
    every model; so for a model of the catalog [generateResponse] starts from
    the model's own limit, never from the fallback. *)
Theorem catalog_invariants :
  getModels = Return models
  ∧ NoDup (modelId <$> models)
  ∧ modelId <$> List.filter isDefault models = [lit "gpt-4o"]
  ∧ ∀ m, m ∈ models →
         0 < inputTokens m
         ∧ ∀ params, OpenAIProvider.model params = Some (asRequestModel m) →
                     Retry.budget params 0 = inputTokens m.
Proof.
  split; [done|]. split; [|split; [done|]].
  - apply (bool_decide_unpack _). by vm_compute.
  - assert (Hpos : Forall (λ m, 0 < inputTokens m) models).
    { unfold models. repeat constructor. }
    intros m Hm. rewrite Forall_forall in Hpos. specialize (Hpos m Hm).
    split; [done|]. intros params Hp. unfold Retry.budget. simpl. rewrite Hp.
    simpl. by destruct (inputTokens m).
Qed.

End MoreClient.

(** * Further properties of [ReviewCodeCommand] *)

Section MoreEscape.

Import ReviewCodeCommand Html More.

Local Ltac split_char x :=
  unfold escapeChar;
  destruct (N.eqb_spec x 38) as [->|?];
  [|destruct (N.eqb_spec x 60) as [->|?];
    [|destruct (N.eqb_spec x 62) as [->|?];
      [|destruct (N.eqb_spec x 34) as [->|?];
        [|destruct (N.eqb_spec x 39) as [->|?]]]]].

(** No entity is the start of another, and none starts like a code unit
    that is kept. *)
Lemma escapeChar_apart (x y : N) (a b : jsstring) :
  escapeChar x ++ a = escapeChar y ++ b → x = y ∧ a = b.
Proof.
  split_char x; split_char y; simpl; intros H; by simplify_eq.
Qed.

Lemma escapeHtml_inj (s t : jsstring) : escapeHtml s = escapeHtml t → s = t.
Proof.
  revert t. induction s as [|x s IH]; intros [|y t].
  - done.
  - rewrite escapeHtml_cons. change (escapeHtml []) with (@nil N).
    split_char y; simpl; discriminate.
  - rewrite escapeHtml_cons. change (escapeHtml []) with (@nil N).
    split_char x; simpl; discriminate.
  - rewrite !escapeHtml_cons. intros [-> H]%escapeChar_apart.
    by rewrite (IH t H).
Qed.

Lemma escapeHtml_length_eq (s : jsstring) :
  length (escapeHtml s)
  = (length s + 4 * occurrences 38 s + 3 * occurrences 60 s
     + 3 * occurrences 62 s + 5 * occurrences 34 s
     + 5 * occurrences 39 s)%nat.
Proof.
  induction s as [|x s IH]; [done|].
  rewrite escapeHtml_cons, length_app, IH. unfold occurrences.
  cbn [List.filter].
  split_char x; [simpl; lia ..|].
  rewrite !(proj2 (N.eqb_neq _ x)) by done. simpl. lia.
Qed.

Lemma escapeHtml_plain (s : jsstring) :
  forallb (λ x, negb (isSpecial x)) s = true → escapeHtml s = s.
Proof.
  induction s as [|x s IH]; [done|]. cbn [forallb].
  intros [Hx Hs]%andb_true_iff. rewrite escapeHtml_cons, (IH Hs).
  unfold isSpecial in Hx. split_char x; try done.
Qed.

Lemma occurrences_special (s : jsstring) :
  occurrences 38 s = 0%nat → occurrences 60 s = 0%nat →
  occurrences 62 s = 0%nat → occurrences 34 s = 0%nat →
  occurrences 39 s = 0%nat →
  forallb (λ x, negb (isSpecial x)) s = true.
Proof.
  induction s as [|x s IH]; [done|]. unfold occurrences, isSpecial.
  cbn [List.filter forallb].
  split_char x; [simpl; intros; discriminate ..|].
  rewrite !(proj2 (N.eqb_neq _ x)) by done.
  intros. cbn [orb negb andb]. by apply IH.
Qed.

(** X24: [escapeHtml] loses nothing: two different texts are never escaped
    to the same text; and escaping a concatenation is concatenating what
    its parts are escaped to. *)
Theorem escapeHtml_injective (s t : jsstring) :
  (escapeHtml s = escapeHtml t ↔ s = t)
  ∧ escapeHtml (s ++ t) = escapeHtml s ++ escapeHtml t.
Proof.
  split; [split; [apply escapeHtml_inj|by intros ->]|].
  unfold escapeHtml. by rewrite !replaceAll_app.
Qed.

(** X25: the length of the escaped text: that of the text, and four more
    for each [&], three for each [<] and each [>], five for each double quote
    and each apostrophe. *)
Theorem escapeHtml_length (s : jsstring) :
  length (escapeHtml s)
  = (length s + 4 * occurrences 38 s + 3 * occurrences 60 s
     + 3 * occurrences 62 s + 5 * occurrences 34 s
     + 5 * occurrences 39 s)%nat.
Proof. apply escapeHtml_length_eq. Qed.

(** X26: [escapeHtml] leaves a text as it is exactly when the text has none
    of the five characters; and escaping twice gives the same as escaping
    once for those texts only. *)
Theorem escapeHtml_unchanged (s : jsstring) :
  (escapeHtml s = s ↔ forallb (λ x, negb (isSpecial x)) s = true)
  ∧ (escapeHtml (escapeHtml s) = escapeHtml s ↔ escapeHtml s = s).
Proof.
  split; [split; [|apply escapeHtml_plain]|split; [apply escapeHtml_inj|congruence]].
  intros H. pose proof (escapeHtml_length_eq s) as Hlen. rewrite H in Hlen.
  apply occurrences_special; lia.
Qed.

End MoreEscape.

Section MoreBatch.

Import ReviewCodeCommand Html Batch More.

Variable getMessage : jsstring → jsstring.
Variable format : jsstring → jsstring → jsstring.
Variable basename : jsstring → jsstring.
Variable handleConfiguration : bool.
Variable detectSCMProvider : bool.
Variable getDiff : jsstring → Outcome (option jsstring).
Variable generateCodeReview : jsstring → jsstring → Outcome (option jsstring).

Local Abbreviation collect := (collectDiff getMessage getDiff).
Local Abbreviation idle :=
  {| diffs := []; fileReviews := []; events := [] |}.
Local Abbreviation execute' :=
  (execute getMessage format basename handleConfiguration detectSCMProvider
     getDiff generateCodeReview).

Lemma collected_keys (resources : list jsstring) :
  (collected getDiff resources).*1 `sublist_of` resources.
Proof.
  induction resources as [|p ps IH]; [done|]. unfold collected. cbn [omap list_omap].
  destruct (diffOk getDiff p); cbn [fmap option_fmap option_map list_fmap fst].
  - by apply sublist_skip.
  - by apply sublist_cons.
Qed.

Lemma collect_fold_order (resources : list jsstring) (r : Run) :
  NoDup resources →
  (∀ p, p ∈ resources → p ∉ (diffs r).*1) →
  diffs (fold_left collect resources r) = diffs r ++ collected getDiff resources.
Proof.
  revert r. induction resources as [|p ps IH]; intros r Hnd Hfresh.
  { simpl. by rewrite app_nil_r. }
  apply NoDup_cons in Hnd as [Hp Hnd]. cbn [fold_left].
  destruct (collectDiff_spec getMessage getDiff r p) as (Hd & _).
  assert (Hfp : p ∉ (diffs r).*1) by apply Hfresh, list_elem_of_here.
  unfold collected. cbn [omap list_omap]. fold (collected getDiff ps).
  rewrite IH; [|done|].
  - rewrite Hd. destruct (diffOk getDiff p) as [d|]; [|done].
    rewrite mapSet_fresh by done. by rewrite <- app_assoc.
  - intros q Hq. rewrite Hd.
    assert (Hqr : q ∉ (diffs r).*1) by by apply Hfresh, list_elem_of_further.
    destruct (diffOk getDiff p) as [d|]; [|done].
    rewrite mapSet_fresh, fmap_app by done. intros [?|Hin]%elem_of_app; [done|].
    apply list_elem_of_singleton in Hin. simpl in Hin. by subst.
Qed.

Lemma reviewed_keys (entries : StringMap) :
  (omap (reviewOk generateCodeReview) entries).*1 `sublist_of` entries.*1.
Proof.
  induction entries as [|[p d] entries IH]; [done|]. cbn [omap list_omap].
  unfold reviewOk at 1. cbn [fst snd].
  destruct (generateCodeReview p d) as [[[|c cs]|]|e];
    cbn [fmap list_fmap fst]; first [by apply sublist_skip|by apply sublist_cons].
Qed.

Lemma reviewed_count (entries : StringMap) :
  length entries
  = (length (omap (reviewOk generateCodeReview) entries)
     + length (List.filter (reviewThrows generateCodeReview) entries)
     + length (List.filter (reviewEmpty generateCodeReview) entries))%nat.
Proof.
  induction entries as [|[p d] entries IH]; [done|].
  cbn [omap list_omap List.filter]. unfold reviewOk at 1, reviewThrows at 1,
    reviewEmpty at 1. cbn [fst snd].
  destruct (generateCodeReview p d) as [[[|c cs]|]|e]; cbn [length]; lia.
Qed.

Lemma quiet_info (es : list UiEvent) :
  forallb isProgressOrLog es = true → List.filter isNotifyInfo es = [].
Proof.
  induction es as [|e es IH]; [done|]. cbn [forallb List.filter].
  intros [He Hes]%andb_true_iff. rewrite (IH Hes). by destruct e.
Qed.

Lemma reviewEvents_info (entries : StringMap) :
  List.filter isNotifyInfo
    (concat (reviewEvents format basename generateCodeReview <$> entries)) = [].
Proof.
  induction entries as [|[p d] entries IH]; [done|].
  cbn [fmap list_fmap concat]. rewrite List.filter_app, IH.
  unfold reviewEvents. simpl. by destruct (generateCodeReview p d).
Qed.

(** The two maps and the completion message of the progress callback. *)
Lemma reviewAll_maps (resources : list jsstring) :
  let r1 := fold_left collect resources idle in
  let run := reviewAll getMessage format basename getDiff generateCodeReview
               resources in
  diffs run = diffs r1
  ∧ fileReviews run = omap (reviewOk generateCodeReview) (diffs r1)
  ∧ List.filter isNotifyInfo (events run)
    = match fileReviews run with
      | [] => []
      | _ :: _ =>
          [NotifyInfo (format (lit "review.complete.count")
                         (toString (length (fileReviews run))))]
      end.
Proof.
  intros r1 run. subst run. unfold reviewAll. fold r1.
  destruct (collect_fold getMessage getDiff resources idle)
    as (Hnd & _ & Hfr & es & Hev & Hquiet);
    [apply NoDup_nil_2|by intros ? ? ?%elem_of_nil|].
  fold r1 in Hnd, Hfr, Hev. simpl in Hfr, Hev.
  pose proof (quiet_info es Hquiet) as Qi.
  destruct (diffs r1) as [|d0 ds] eqn:Hds.
  { cbn [length Nat.eqb say diffs fileReviews events]. rewrite Hds, Hfr, Hev.
    rewrite List.filter_app, Qi. by repeat split. }
  change (length (d0 :: ds) =? 0)%nat with false. cbv iota.
  destruct (review_fold format basename generateCodeReview (d0 :: ds) r1)
    as (Rd & Rf & Re); [done|rewrite Hfr; by intros ? ?%elem_of_nil|].
  set (r2 := fold_left (reviewFile format basename generateCodeReview) _ r1) in *.
  rewrite Hfr, app_nil_l in Rf. rewrite Hds in Rd.
  pose proof (reviewEvents_info (d0 :: ds)) as Fi.
  cbn [say diffs fileReviews events]. rewrite Rf.
  destruct (omap (reviewOk generateCodeReview) (d0 :: ds)) as [|f0 fs] eqn:Hom.
  - cbn [length Nat.eqb say diffs fileReviews events]. rewrite Rd, Rf, ?Hom, Re, Hev.
    rewrite !List.filter_app, Qi, Fi. by repeat split.
  - cbn [length Nat.eqb say diffs fileReviews events]. rewrite Rd, Rf, ?Hom, Re, Hev.
    rewrite !List.filter_app, Qi, Fi. by repeat split.
Qed.



(** X29: the title of the panel is put into the document as it is, without
    [escapeHtml]: beside the markup of the template (thirteen [<], thirteen
    [>], six double quotes) and of the six per file, the document has every
    [<], [>], double quote and apostrophe of the localized title. *)
Theorem webview_title_raw (reviews : StringMap) :
  let title := getMessage (lit "review.results.title") in
  let document := getWebviewContent getMessage basename reviews in
  occurrences 60 document
  = (13 + occurrences 60 title + 6 * length reviews)%nat
  ∧ occurrences 62 document
    = (13 + occurrences 62 title + 6 * length reviews)%nat
  ∧ occurrences 34 document
    = (6 + occurrences 34 title + 6 * length reviews)%nat
  ∧ occurrences 39 document = occurrences 39 title.
Proof.
  intros title document. subst title document. unfold getWebviewContent.
  rewrite !occurrences_app.
  rewrite (reviewHtml_occurrences basename reviews 60 6);
    [|done|intros e; apply reviewSection_occurrences; lia].
  rewrite (reviewHtml_occurrences basename reviews 62 6);
    [|done|intros e; apply reviewSection_occurrences; lia].
  rewrite (reviewHtml_occurrences basename reviews 34 6);
    [|done|intros e; apply reviewSection_occurrences; lia].
  rewrite (reviewHtml_occurrences basename reviews 39 0);
    [|done|apply reviewSection_apostrophes].
  set (n := length reviews).
  set (t60 := occurrences 60 (getMessage _)).
  set (t62 := occurrences 62 (getMessage _)).
  set (t34 := occurrences 34 (getMessage _)).
  set (t39 := occurrences 39 (getMessage _)).
  clearbody n t60 t62 t34 t39.
  repeat match goal with
         | |- context [occurrences ?c ?s] =>
             let v := eval vm_compute in (occurrences c s) in
             change (occurrences c s) with v
         end.
  lia.
Qed.

End MoreBatch.

Section MoreBatchWitness.

Import ReviewCodeCommand Batch More.


End MoreBatchWitness.
